(** * ProxyNest: the assignment and lifecycle engine of [proxynest.py]

    A shallow embedding of the [ProxyManagement] class and of the one
    route of [API.py] that bypasses it, followed by the properties of its
    lease bookkeeping.

    Conventions of the embedding.
    - A [datetime] is an integer number of milliseconds since the epoch,
      in UTC (the resolution of a stored BSON date); [timedelta(minutes=n)]
      is [n * 60000].  The readings of the two clocks the code consults
      (Python's [datetime.now] and the server clock of [$currentDate]) are
      parameters of the operations.
    - A BSON document keeps its fields in order, and so does a Python
      dict: the lease mapping [instance_ids] is an association list.
    - A collection is the list of its documents in natural order;
      [find_one] and [update_one] act on the first match.
    - Python exceptions and HTTP errors are results of a small state and
      exception monad over the manager object [self]; writes made before
      an exception is raised stay in the state.
    - Every [await] on the store is one monadic step, so the steps of an
      operation can be run on different states where interleaving with
      another writer matters. *)

From Stdlib Require Import ZArith String Ascii List Bool Lia.
From stdpp Require Import base decidable option list strings gmap.

Open Scope string_scope.
Open Scope list_scope.
Open Scope Z_scope.

(** ** Values stored in documents *)

Definition oid := N.
Bind Scope N_scope with oid.

(** A field of a document that Python may read as absent, [None] or a
    value. *)
Inductive field (A : Type) : Type :=
| Missing
| Null
| Value (a : A).
Arguments Missing {A}.
Arguments Null {A}.
Arguments Value {A} a.

Global Instance field_eq_dec {A} `{EqDecision A} : EqDecision (field A).
Proof. solve_decision. Defined.

Definition timedelta_minutes (n : Z) : Z := n * 60000.

(** *** Python dicts / BSON sub-documents as ordered association lists *)

Section dict.
Context {V : Type}.

Fixpoint dict_get (k : string) (d : list (string * V)) : option V :=
  match d with
  | [] => None
  | (k', v) :: d' => if decide (k' = k) then Some v else dict_get k d'
  end.

(** [d[k] = v]: overwrite in place, or append a new last entry. *)
Fixpoint dict_set (k : string) (v : V) (d : list (string * V)) : list (string * V) :=
  match d with
  | [] => [(k, v)]
  | (k', v') :: d' =>
      if decide (k' = k) then (k, v) :: d' else (k', v') :: dict_set k v d'
  end.

(** Removal of the entry of a key, the other entries keeping their order. *)
Definition dict_del (k : string) (d : list (string * V)) : list (string * V) :=
  filter (λ e, e.1 ≠ k) d.

Definition dict_keys (d : list (string * V)) : list string := d.*1.
End dict.

(** The shapes the field [instance_ids] takes in the collection: the
    mapping of leases written by [assign_proxy_to_instance]; an array of
    instance ids, which is what [assign_instance_id]'s [$addToSet] creates
    on a document without the field; or no field at all. *)
Inductive ids_value : Type :=
| IdsMissing
| IdsMap (m : list (string * Z))
| IdsArray (l : list string).

Global Instance ids_value_eq_dec : EqDecision ids_value.
Proof. solve_decision. Defined.

(** The documents of the collection [proxies] (the fields of [ProxyModel]
    that the operations below read or write). *)
Record proxy : Type := {
  _id : oid;
  ip : string;
  port : Z;
  username : option string;
  password : option string;
  protocol : string;
  status : string;
  country_code : option string;
  instance_id : field string;
  instance_ids : ids_value;
  last_used : field Z;
  tags : list string
}.

Global Instance proxy_eq_dec : EqDecision proxy.
Proof. solve_decision. Defined.

Definition set_instance_ids (v : ids_value) (p : proxy) : proxy :=
  {| _id := _id p; ip := ip p; port := port p; username := username p;
     password := password p; protocol := protocol p; status := status p;
     country_code := country_code p; instance_id := instance_id p;
     instance_ids := v; last_used := last_used p; tags := tags p |}.

Definition set_last_used (v : field Z) (p : proxy) : proxy :=
  {| _id := _id p; ip := ip p; port := port p; username := username p;
     password := password p; protocol := protocol p; status := status p;
     country_code := country_code p; instance_id := instance_id p;
     instance_ids := instance_ids p; last_used := v; tags := tags p |}.

Definition set_instance_id (v : field string) (p : proxy) : proxy :=
  {| _id := _id p; ip := ip p; port := port p; username := username p;
     password := password p; protocol := protocol p; status := status p;
     country_code := country_code p; instance_id := v;
     instance_ids := instance_ids p; last_used := last_used p; tags := tags p |}.

(** ** The manager object and its monad *)

(** [self]: the cached settings and the two collections of [self.db].
    The five attributes exist once [load_settings] has run, which
    [on_startup] does before any request is served. *)
Record ProxyManagement : Type := {
  settings : option (gmap string Z);
  inactive_proxy_timeout : Z;
  threshold_time_minutes : Z;
  background_check_proxies_interval : Z;
  max_instances_per_proxy : Z;
  max_proxies_per_instance : Z;
  db_proxies : list proxy;
  db_proxy_manager_settings : list (gmap string Z)
}.

Definition with_proxies (c : list proxy) (self : ProxyManagement) : ProxyManagement :=
  {| settings := settings self;
     inactive_proxy_timeout := inactive_proxy_timeout self;
     threshold_time_minutes := threshold_time_minutes self;
     background_check_proxies_interval := background_check_proxies_interval self;
     max_instances_per_proxy := max_instances_per_proxy self;
     max_proxies_per_instance := max_proxies_per_instance self;
     db_proxies := c;
     db_proxy_manager_settings := db_proxy_manager_settings self |}.

Definition with_settings_collection (c : list (gmap string Z)) (self : ProxyManagement)
  : ProxyManagement :=
  {| settings := settings self;
     inactive_proxy_timeout := inactive_proxy_timeout self;
     threshold_time_minutes := threshold_time_minutes self;
     background_check_proxies_interval := background_check_proxies_interval self;
     max_instances_per_proxy := max_instances_per_proxy self;
     max_proxies_per_instance := max_proxies_per_instance self;
     db_proxies := db_proxies self;
     db_proxy_manager_settings := c |}.

Inductive exn : Type :=
| HTTPException (status_code : Z)
| AttributeError
| KeyError (key : string)
| DuplicateKeyError
| ValidationError
| OutsideModel.

Inductive result (A : Type) : Type :=
| Ret (a : A)
| Raise (e : exn).
Arguments Ret {A} a.
Arguments Raise {A} e.

Definition M (A : Type) : Type := ProxyManagement → result A * ProxyManagement.

Definition ret {A} (a : A) : M A := λ self, (Ret a, self).
Definition raise {A} (e : exn) : M A := λ self, (Raise e, self).
Definition bind {A B} (c : M A) (k : A → M B) : M B :=
  λ self, match c self with
          | (Ret a, self') => k a self'
          | (Raise e, self') => (Raise e, self')
          end.
Definition get_self : M ProxyManagement := λ self, (Ret self, self).
Definition lift {A} (r : result A) : M A := λ self, (r, self).

Notation "'let*' x ':=' c 'in' k" := (bind c (λ x, k))
  (at level 10, x name, c at level 100, k at level 200).

(** [try: ... except HTTPException: raise / except Exception: raise
    HTTPException(500)]. *)
Definition reraise_as_500 {A} (c : M A) : M A :=
  λ self, match c self with
          | (Raise (HTTPException code), self') => (Raise (HTTPException code), self')
          | (Raise _, self') => (Raise (HTTPException 500), self')
          | r => r
          end.

(** ** The store: the operations of the driver on a collection *)

Record UpdateResult : Type := {
  matched_count : nat;
  modified_count : nat
}.

Definition find (query : proxy → bool) : M (list proxy) :=
  λ self, (Ret (List.filter query (db_proxies self)), self).

Definition find_one (query : proxy → bool) : M (option proxy) :=
  λ self, (Ret (head (List.filter query (db_proxies self))), self).

(** [update_one]: the first document matching the filter is replaced by
    its image under the update operator; it counts as modified when the
    image differs from it.  An update the server rejects changes nothing. *)
Fixpoint update_first (query : proxy → bool) (update : proxy → result proxy)
    (c : list proxy) : result (list proxy * UpdateResult) :=
  match c with
  | [] => Ret ([], {| matched_count := 0; modified_count := 0 |})
  | d :: c' =>
      if query d then
        match update d with
        | Ret d' =>
            Ret (d' :: c',
                 {| matched_count := 1;
                    modified_count := if decide (d' = d) then 0 else 1 |})
        | Raise e => Raise e
        end
      else
        match update_first query update c' with
        | Ret (c'', r) => Ret (d :: c'', r)
        | Raise e => Raise e
        end
  end.

Definition update_one (query : proxy → bool) (update : proxy → result proxy)
  : M UpdateResult :=
  λ self, match update_first query update (db_proxies self) with
          | Ret (c, r) => (Ret r, with_proxies c self)
          | Raise e => (Raise e, self)
          end.

(** [insert_one]: [_id] carries a unique index. *)
Definition insert_one (doc : proxy) : M unit :=
  λ self, if existsb (λ d, bool_decide (_id d = _id doc)) (db_proxies self)
          then (Raise DuplicateKeyError, self)
          else (Ret (), with_proxies (db_proxies self ++ [doc]) self).

(** *** Filters *)

Definition by_id (proxy_id : oid) (d : proxy) : bool := bool_decide (_id d = proxy_id).

(** [{"instance_ids": instance_id}]: equality of the field with a string.
    An array field matches when one of its elements is the string; a
    sub-document is never equal to a string. *)
Definition instance_ids_equals (inst : string) (d : proxy) : bool :=
  match instance_ids d with
  | IdsArray l => bool_decide (inst ∈ l)
  | IdsMap _ | IdsMissing => false
  end.

(** [{"instance_ids": {"$type": "object"}}]. *)
Definition instance_ids_is_object (d : proxy) : bool :=
  match instance_ids d with
  | IdsMap _ => true
  | IdsArray _ | IdsMissing => false
  end.

(** [$where: this.instance_ids && Object.keys(this.instance_ids).length < max]:
    an absent field is [undefined]; objects and arrays are truthy, and the
    keys of an array are its indices. *)
Definition where_below_capacity (max : Z) (d : proxy) : bool :=
  match instance_ids d with
  | IdsMissing => false
  | IdsMap m => bool_decide (Z.of_nat (length m) < max)
  | IdsArray l => bool_decide (Z.of_nat (length l) < max)
  end.

(** [{"tags": {"$all": tags}}]. *)
Definition tags_all (wanted : list string) (d : proxy) : bool :=
  forallb (λ t, bool_decide (t ∈ tags d)) wanted.

(** [str.upper], on the ASCII letters. *)
Definition upper_ascii (c : ascii) : ascii :=
  let n := nat_of_ascii c in
  if ((97 <=? n)%nat && (n <=? 122)%nat)%bool then ascii_of_nat (n - 32) else c.

Fixpoint upper (s : string) : string :=
  match s with
  | EmptyString => EmptyString
  | String c s' => String (upper_ascii c) (upper s')
  end.

Definition country_is (code : string) (d : proxy) : bool :=
  bool_decide (country_code d = Some code).

(** *** Update operators *)

(** A path [instance_ids.<instance_id>] built by string interpolation
    addresses the entry [<instance_id>] of the mapping exactly when the
    identifier is one field name: not empty, without the separator ["."],
    not starting with ["$"].  Other identifiers are outside the embedding:
    an update through such a path yields [OutsideModel]. *)
Fixpoint no_dot (s : string) : bool :=
  match s with
  | EmptyString => true
  | String c s' => negb (Ascii.eqb c ".") && no_dot s'
  end.

Definition plain_field_name (s : string) : bool :=
  match s with
  | EmptyString => false
  | String c _ => negb (Ascii.eqb c "$") && no_dot s
  end.

(** [{"$set": {"instance_ids": m}}]. *)
Definition op_set_instance_ids (m : list (string * Z)) (d : proxy) : result proxy :=
  Ret (set_instance_ids (IdsMap m) d).

(** [{"$set": {"instance_id": None}}]. *)
Definition op_set_instance_id_null (d : proxy) : result proxy :=
  Ret (set_instance_id Null d).

(** [{"$unset": {"instance_ids.<k>": "" for k in keys}}], with
    ["last_used"] added to the paths when [and_last_used]. *)
Definition op_unset (keys : list string) (and_last_used : bool) (d : proxy) : result proxy :=
  if forallb plain_field_name keys then
    let d' := if and_last_used then set_last_used Missing d else d in
    match instance_ids d with
    | IdsMap m => Ret (set_instance_ids (IdsMap (foldr dict_del m keys)) d')
    | IdsMissing => Ret d'
    | IdsArray _ => Raise OutsideModel
    end
  else Raise OutsideModel.

(** [{"$currentDate": {"last_used": True}}]. *)
Definition op_current_date_last_used (server_time : Z) (d : proxy) : result proxy :=
  Ret (set_last_used (Value server_time) d).

(** [{"$currentDate": {"instance_ids.<inst>": True}}]: the entry is set,
    and created when absent (with the mapping itself if need be).  Paths
    into an array are outside the embedding. *)
Definition op_current_date_lease (inst : string) (server_time : Z) (d : proxy) : result proxy :=
  if plain_field_name inst then
    match instance_ids d with
    | IdsMap m => Ret (set_instance_ids (IdsMap (dict_set inst server_time m)) d)
    | IdsMissing => Ret (set_instance_ids (IdsMap [(inst, server_time)]) d)
    | IdsArray _ => Raise OutsideModel
    end
  else Raise OutsideModel.

(** ** Settings (lines 95-100, 127-147, 177-197) *)

(** A document of [proxy_manager_settings] is the map of its integer
    fields by name.  (The [_id] the server adds plays no role.) *)

(** The pydantic model of a patch: five optional integers. *)
Module SettingsModel.
Record t : Type := {
  max_proxies_per_instance : option Z;
  max_instances_per_proxy : option Z;
  inactive_proxy_timeout : option Z;
  background_check_proxies_interval : option Z;
  threshold_time_minutes : option Z
}.

(** The fields of the model, in the order of the class. *)
Definition items (s : t) : list (string * option Z) :=
  [("max_proxies_per_instance", max_proxies_per_instance s);
   ("max_instances_per_proxy", max_instances_per_proxy s);
   ("inactive_proxy_timeout", inactive_proxy_timeout s);
   ("background_check_proxies_interval", background_check_proxies_interval s);
   ("threshold_time_minutes", threshold_time_minutes s)].

(** [model_dump(exclude_none=True)]. *)
Definition model_dump_exclude_none (s : t) : gmap string Z :=
  list_to_map (omap (λ kv : string * option Z, (λ v, (kv.1, v)) <$> kv.2) (items s)).
End SettingsModel.

Definition default_settings : gmap string Z :=
  list_to_map
    [("inactive_proxy_timeout", 10);
     ("threshold_time_minutes", 10);
     ("background_check_proxies_interval", 60);
     ("max_instances_per_proxy", 2);
     ("max_proxies_per_instance", 1)].

(** [proxy_manager_settings.find_one()]. *)
Definition settings_find_one : M (option (gmap string Z)) :=
  λ self, (Ret (head (db_proxy_manager_settings self)), self).

(** [proxy_manager_settings.insert_one(doc)]. *)
Definition settings_insert_one (doc : gmap string Z) : M unit :=
  λ self, (Ret (), with_settings_collection (db_proxy_manager_settings self ++ [doc]) self).

(** [proxy_manager_settings.update_one({}, {'$set': update_dict}, upsert=True)]:
    the first document takes the fields of [update_dict]; with no document
    to match, one is inserted that holds these fields alone, and
    [matched_count] is 0. *)
Definition settings_update_one_upsert (update_dict : gmap string Z) : M UpdateResult :=
  λ self, match db_proxy_manager_settings self with
          | [] =>
              (Ret {| matched_count := 0; modified_count := 0 |},
               with_settings_collection [update_dict] self)
          | d :: c =>
              (Ret {| matched_count := 1;
                      modified_count := if decide (update_dict ∪ d = d) then 0 else 1 |},
               with_settings_collection ((update_dict ∪ d) :: c) self)
          end.

(** [d[k]]. *)
Definition subscript (d : gmap string Z) (k : string) : M Z :=
  match d !! k with
  | Some v => ret v
  | None => raise (KeyError k)
  end.

(** Assignments to the attributes of [self]. *)
Definition set_self_settings (v : gmap string Z) : M unit :=
  λ s, let 'Build_ProxyManagement _ a b c d e p q := s in
       (Ret (), Build_ProxyManagement (Some v) a b c d e p q).
Definition set_self_inactive_proxy_timeout (v : Z) : M unit :=
  λ s, let 'Build_ProxyManagement x _ b c d e p q := s in
       (Ret (), Build_ProxyManagement x v b c d e p q).
Definition set_self_threshold_time_minutes (v : Z) : M unit :=
  λ s, let 'Build_ProxyManagement x a _ c d e p q := s in
       (Ret (), Build_ProxyManagement x a v c d e p q).
Definition set_self_background_check_proxies_interval (v : Z) : M unit :=
  λ s, let 'Build_ProxyManagement x a b _ d e p q := s in
       (Ret (), Build_ProxyManagement x a b v d e p q).
Definition set_self_max_instances_per_proxy (v : Z) : M unit :=
  λ s, let 'Build_ProxyManagement x a b c _ e p q := s in
       (Ret (), Build_ProxyManagement x a b c v e p q).
Definition set_self_max_proxies_per_instance (v : Z) : M unit :=
  λ s, let 'Build_ProxyManagement x a b c d _ p q := s in
       (Ret (), Build_ProxyManagement x a b c d v p q).

(** [load_settings] (lines 127-147).  [self.settings] is assigned only in
    the branch that inserts the defaults. *)
Definition load_settings : M (gmap string Z) :=
  let* found := settings_find_one in
  let* settings :=
    match found with
    | None =>
        let* _ := settings_insert_one default_settings in
        let* _ := set_self_settings default_settings in
        ret default_settings
    | Some settings => ret settings
    end in
  let* v := subscript settings "inactive_proxy_timeout" in
  let* _ := set_self_inactive_proxy_timeout v in
  let* v := subscript settings "threshold_time_minutes" in
  let* _ := set_self_threshold_time_minutes v in
  let* v := subscript settings "background_check_proxies_interval" in
  let* _ := set_self_background_check_proxies_interval v in
  let* v := subscript settings "max_instances_per_proxy" in
  let* _ := set_self_max_instances_per_proxy v in
  let* v := subscript settings "max_proxies_per_instance" in
  let* _ := set_self_max_proxies_per_instance v in
  ret settings.

(** [update_settings] (lines 177-197); the value returned is the
    ["updated_settings"] of the success reply. *)
Definition update_settings (updated_settings : SettingsModel.t) : M (gmap string Z) :=
  reraise_as_500
    (let update_dict := SettingsModel.model_dump_exclude_none updated_settings in
     if decide (update_dict = ∅) then raise (HTTPException 400)
     else
       let* result := settings_update_one_upsert update_dict in
       if (matched_count result <? 1)%nat then raise (HTTPException 404)
       else
         let* _ := load_settings in
         ret update_dict).

(** ** Releasing and refreshing leases (lines 232-255, 578-591) *)

(** The [{"status": ..., "message": ...}] replies that carry nothing else. *)
Inductive reply : Type :=
| ReplySuccess
| ReplyError.

(** [clear_instance_id] (lines 242-255). *)
Definition clear_instance_id (proxy_id : oid) (inst : string) : M bool :=
  let* result :=
    update_one (λ d, by_id proxy_id d && instance_ids_is_object d) (op_unset [inst] false) in
  if decide (modified_count result = 1%nat) then ret true
  else
    let* result := update_one (by_id proxy_id) op_set_instance_id_null in
    ret (bool_decide (modified_count result = 1%nat)).

(** [clear_instance_from_specific_proxy] (lines 232-240), on the parsed
    [ObjectId]. *)
Definition clear_instance_from_specific_proxy (proxy_id : oid) (inst : string) : M reply :=
  let* result := clear_instance_id proxy_id inst in
  if result then ret ReplySuccess else ret ReplyError.

(** [update_last_used] (lines 578-591).  [if instance_id:] is false for
    [None] and for the empty string. *)
Definition update_last_used (proxy_id : oid) (inst : option string) (server_time : Z)
  : M bool :=
  let update_query :=
    match inst with
    | None | Some EmptyString => op_current_date_last_used server_time
    | Some instance_id => op_current_date_lease instance_id server_time
    end in
  let* result := update_one (by_id proxy_id) update_query in
  ret (bool_decide (0 < modified_count result)%nat).

Module API.
(** The route [/refresh_proxy_usage/{proxy_id}] (API.py, lines 56-65). *)
Definition refresh_proxy_usage (proxy_id : oid) (inst : option string) (server_time : Z)
  : M reply :=
  let* result := update_last_used proxy_id inst server_time in
  if result then ret ReplySuccess else ret ReplyError.
End API.

(** ** Assignment (lines 257-322) *)

Inductive assignment : Type :=
| InstanceSaturated
| NoProxyAvailable
| Assigned (proxy_id : oid) (ip : string) (port : Z)
           (username password : option string) (protocol : string)
| AssignFailed (proxy_id : oid).

(** The ["status"] of each reply. *)
Definition assignment_status (r : assignment) : string :=
  match r with
  | Assigned _ _ _ _ _ _ => "success"
  | InstanceSaturated | NoProxyAvailable | AssignFailed _ => "error"
  end.

Inductive selection : Type :=
| Saturated
| NoCandidate
| Candidate (proxy : proxy).

(** The candidate query (lines 267-275).  [if tags:] and [if
    country_code:] are false for [None], the empty list and the empty
    string. *)
Definition candidate_query (max : Z) (country_code : option string)
    (tags : option (list string)) (d : proxy) : bool :=
  bool_decide (status d = "UP")
  && where_below_capacity max d
  && match tags with
     | None | Some [] => true
     | Some wanted => tags_all wanted d
     end
  && match country_code with
     | None | Some EmptyString => true
     | Some code => country_is (upper code) d
     end.

(** Lines 259-289: the saturation check and the choice of a candidate. *)
Definition assign_select (inst : string) (country_code : option string)
    (tags : option (list string)) : M selection :=
  let* instance_proxies := find (instance_ids_equals inst) in
  let* self := get_self in
  if bool_decide (max_proxies_per_instance self ≤ Z.of_nat (length instance_proxies))
  then ret Saturated
  else
    let* proxy := find_one (candidate_query (max_instances_per_proxy self) country_code tags) in
    match proxy with
    | None => ret NoCandidate
    | Some proxy => ret (Candidate proxy)
    end.

(** Lines 294-299: the leases of the candidate as read, without those not
    newer than the timeout, with the lease of the caller.  [.items()] is
    an [AttributeError] on a list. *)
Definition assign_leases (timeout : Z) (proxy : proxy) (inst : string) (current_time : Z)
  : result (list (string * Z)) :=
  match instance_ids proxy with
  | IdsMap m =>
      Ret (dict_set inst current_time
             (filter (λ kv, current_time - timedelta_minutes timeout < kv.2) m))
  | IdsArray _ => Raise AttributeError
  | IdsMissing => Raise (KeyError "instance_ids")
  end.

(** Lines 301-322: the write, and the reply. *)
Definition assign_commit (proxy : proxy) (new_instance_ids : list (string * Z))
    (server_time : Z) : M assignment :=
  let proxy_id := _id proxy in
  let* result := update_one (by_id proxy_id) (op_set_instance_ids new_instance_ids) in
  if decide (modified_count result = 1%nat) then
    let* _ := update_last_used proxy_id None server_time in
    ret (Assigned proxy_id (ip proxy) (port proxy) (username proxy) (password proxy)
           (protocol proxy))
  else ret (AssignFailed proxy_id).

Definition assign_proxy_to_instance (inst : string) (country_code : option string)
    (tags : option (list string)) (current_time server_time : Z) : M assignment :=
  let* chosen := assign_select inst country_code tags in
  match chosen with
  | Saturated => ret InstanceSaturated
  | NoCandidate => ret NoProxyAvailable
  | Candidate proxy =>
      let* self := get_self in
      let* new_instance_ids :=
        lift (assign_leases (inactive_proxy_timeout self) proxy inst current_time) in
      assign_commit proxy new_instance_ids server_time
  end.

(** ** The expiry sweep (lines 324-357) *)

(** The body of the [for] loop, for one document of the list read at the
    start of the iteration. *)
Definition sweep_proxy (threshold_time : Z) (proxy : proxy) : M unit :=
  match instance_ids proxy with
  | IdsArray _ => ret ()
  | IdsMissing => ret ()
  | IdsMap instance_ids =>
      let expired_instance_ids :=
        dict_keys (filter (λ kv, kv.2 < threshold_time) instance_ids) in
      match expired_instance_ids with
      | [] => ret ()
      | _ :: _ =>
          let* _ :=
            update_one (by_id (_id proxy))
              (op_unset expired_instance_ids
                 (bool_decide (length expired_instance_ids = length instance_ids))) in
          ret ()
      end
  end.

Fixpoint for_each {A} (body : A → M unit) (l : list A) : M unit :=
  match l with
  | [] => ret ()
  | x :: l' => let* _ := body x in for_each body l'
  end.

(** One iteration of the [while True] of [clear_inactive_proxies], up to
    its [asyncio.sleep]. *)
Definition clear_inactive_proxies_iteration (current_time : Z) : M unit :=
  let* self := get_self in
  let threshold_time := current_time - timedelta_minutes (threshold_time_minutes self) in
  let* proxies := find (λ _, true) in
  for_each (sweep_proxy threshold_time) proxies.

(** ** Registration (lines 417-443) *)

(** The filter [{'ip': ..., 'port': ..., 'protocol': ...}] of [add_proxy]. *)
Definition triple_query (proxy_data d : proxy) : bool :=
  bool_decide (ip d = ip proxy_data) && bool_decide (port d = port proxy_data)
  && bool_decide (protocol d = protocol proxy_data).

(** [add_proxy], on [proxy_data], the dump of the validated model (its
    [_id] drawn by the model's default factory when the caller gave
    none).  The probe it schedules runs later, as its own task. *)
Definition add_proxy (proxy_data : proxy) : M oid :=
  reraise_as_500
    (let* existing_proxy := find_one (triple_query proxy_data) in
     match existing_proxy with
     | Some _ => raise (HTTPException 400)
     | None =>
         let* _ := insert_one proxy_data in
         ret (_id proxy_data)
     end).

(** [get_proxy], without the conversion to [ProxyModel]. *)
Definition get_proxy (proxy_id : oid) (self : ProxyManagement) : option proxy :=
  head (List.filter (by_id proxy_id) (db_proxies self)).

(** ** The other operations of the manager *)

(** [get_settings] (lines 199-201): [self.settings] through a JSON round
    trip, which leaves [None] and integers as they are. *)
Definition get_settings : M (option (gmap string Z)) :=
  λ self, (Ret (settings self), self).

(** *** Resetting and deleting (lines 158-175, 621-626) *)

(** [update_many]: every document matching the filter is replaced by its
    image; [modified_count] counts those the update changed. *)
Definition update_many (query : proxy → bool) (update : proxy → proxy) : M UpdateResult :=
  λ self,
    let c := db_proxies self in
    (Ret {| matched_count := length (List.filter query c);
            modified_count :=
              length (List.filter (λ d, query d && negb (bool_decide (update d = d))) c) |},
     with_proxies (List.map (λ d, if query d then update d else d) c) self).

(** [{"$set": {"instance_ids": {}, "last_used": None}}]. *)
Definition op_reset (d : proxy) : proxy :=
  set_last_used Null (set_instance_ids (IdsMap []) d).

Inductive reset_reply : Type :=
| ResetNoProxies
| ResetNotNeeded
| ResetDone (modified : nat).

(** The ["status"] of each reply of [reset_all_proxies]. *)
Definition reset_status (r : reset_reply) : string :=
  match r with
  | ResetNoProxies | ResetNotNeeded => "info"
  | ResetDone _ => "success"
  end.

Definition reset_all_proxies : M reset_reply :=
  let* result := update_many (λ _, true) op_reset in
  if decide (matched_count result = 0%nat) then ret ResetNoProxies
  else if decide (modified_count result = 0%nat) then ret ResetNotNeeded
  else ret (ResetDone (modified_count result)).

(** [delete_one]: the first document matching the filter is removed. *)
Fixpoint delete_first (query : proxy → bool) (c : list proxy) : list proxy * nat :=
  match c with
  | [] => ([], 0%nat)
  | d :: c' =>
      if query d then (c', 1%nat)
      else let '(c'', n) := delete_first query c' in (d :: c'', n)
  end.

Definition delete_one (query : proxy → bool) : M nat :=
  λ self, let '(c, n) := delete_first query (db_proxies self) in
          (Ret n, with_proxies c self).

Definition delete_proxy (proxy_id : oid) : M reply :=
  let* deleted_count := delete_one (by_id proxy_id) in
  if decide (deleted_count = 1%nat) then ret ReplySuccess else ret ReplyError.

(** *** Listing (lines 593-619) *)

(** [proxy_data.get("instance_ids", {})], replaced by [{}] when it is not a
    dict. *)
Definition leases_of_document (d : proxy) : list (string * Z) :=
  match instance_ids d with
  | IdsMap m => m
  | IdsArray _ | IdsMissing => []
  end.

(** The pydantic model of a proxy (lines 71-84), for the fields of the
    documents above; an absent or null field reads as [None]. *)
Module ProxyModel.
Record t : Type := {
  id : oid;
  ip : string;
  port : Z;
  username : option string;
  password : option string;
  protocol : string;
  status : string;
  country_code : option string;
  instance_id : option string;
  instance_ids : list (string * Z);
  last_used : option Z;
  tags : list string
}.
End ProxyModel.

Definition field_to_option {A} (f : field A) : option A :=
  match f with
  | Value a => Some a
  | Missing | Null => None
  end.

(** The body of the loop of [get_proxies]: a field [instance_ids] that is
    not a dict counts as no lease; with exactly one lease, [instance_id] is
    overwritten with its key. *)
Definition with_counts (d : proxy) : ProxyModel.t :=
  let instance_ids := leases_of_document d in
  {| ProxyModel.id := _id d;
     ProxyModel.ip := ip d;
     ProxyModel.port := port d;
     ProxyModel.username := username d;
     ProxyModel.password := password d;
     ProxyModel.protocol := protocol d;
     ProxyModel.status := status d;
     ProxyModel.country_code := country_code d;
     ProxyModel.instance_id :=
       match instance_ids with
       | [(k, _)] => Some k
       | _ => field_to_option (instance_id d)
       end;
     ProxyModel.instance_ids := instance_ids;
     ProxyModel.last_used := field_to_option (last_used d);
     ProxyModel.tags := tags d |}.

(** [{"tags": {"$in": tags}}]. *)
Definition tags_in (wanted : list string) (d : proxy) : bool :=
  existsb (λ t, bool_decide (t ∈ wanted)) (tags d).

(** [get_proxies].  The loop body has put [{}] in the place of an
    [instance_ids] that is not a dict, so the data of every document above
    passes the validation of the model, and none is dropped by the
    [except ValidationError]. *)
Definition get_proxies (tags : option (list string)) : M (list ProxyModel.t) :=
  let query :=
    match tags with
    | None | Some [] => λ _, true
    | Some wanted => tags_in wanted
    end in
  let* proxies := find query in
  ret (List.map with_counts proxies).

(** *** Releasing an instance everywhere (lines 203-230) *)

Inductive reservation_reply : Type :=
| ReservationCleared (cleared_proxies : list oid)
| ReservationClearFailed (proxy_id : oid)
| ReservationNotFound.

(** The loop of [clear_instance_reservation], with its early [return]. *)
Fixpoint clear_each (inst : string) (proxies : list ProxyModel.t) (cleared_proxies : list oid)
  : M reservation_reply :=
  match proxies with
  | [] =>
      match cleared_proxies with
      | [] => ret ReservationNotFound
      | _ :: _ => ret (ReservationCleared cleared_proxies)
      end
  | proxy :: proxies' =>
      if bool_decide (is_Some (dict_get inst (ProxyModel.instance_ids proxy))) then
        let* result := clear_instance_id (ProxyModel.id proxy) inst in
        if result then clear_each inst proxies' (cleared_proxies ++ [ProxyModel.id proxy])
        else ret (ReservationClearFailed (ProxyModel.id proxy))
      else clear_each inst proxies' cleared_proxies
  end.

Definition clear_instance_reservation (inst : string) : M reservation_reply :=
  let* proxies := get_proxies None in
  clear_each inst proxies [].

(** *** The legacy assignment (lines 628-633) *)

(** [{"$addToSet": {"instance_ids": inst}}]: the server refuses the
    operator on a field that is not an array, and creates the array on a
    document without the field. *)
Inductive write_outcome (A : Type) : Type :=
| Written (a : A)
| WriteError.
Arguments Written {A} a.
Arguments WriteError {A}.

Definition add_to_set (inst : string) (d : proxy) : write_outcome proxy :=
  match instance_ids d with
  | IdsMissing => Written (set_instance_ids (IdsArray [inst]) d)
  | IdsArray l =>
      Written (if bool_decide (inst ∈ l) then d else set_instance_ids (IdsArray (l ++ [inst])) d)
  | IdsMap _ => WriteError
  end.

Fixpoint add_to_set_first (proxy_id : oid) (inst : string) (c : list proxy)
  : write_outcome (list proxy * nat) :=
  match c with
  | [] => Written ([], 0%nat)
  | d :: c' =>
      if by_id proxy_id d then
        match add_to_set inst d with
        | Written d' => Written (d' :: c', if decide (d' = d) then 0%nat else 1%nat)
        | WriteError => WriteError
        end
      else
        match add_to_set_first proxy_id inst c' with
        | Written (c'', n) => Written (d :: c'', n)
        | WriteError => WriteError
        end
  end.

(** [assign_instance_id]: the reply, or the error of the server, which the
    method lets through; and the state. *)
Definition assign_instance_id (proxy_id : oid) (inst : string) (self : ProxyManagement)
  : write_outcome bool * ProxyManagement :=
  match add_to_set_first proxy_id inst (db_proxies self) with
  | Written (c, modified_count) =>
      (Written (bool_decide (modified_count = 1%nat)), with_proxies c self)
  | WriteError => (WriteError, self)
  end.

(** *** Editing (lines 359-404) *)

(** The values a patch may carry: [Union[str, int, List[str]]]. *)
Inductive value : Type :=
| VStr (s : string)
| VInt (n : Z)
| VList (l : list string).

Global Instance value_eq_dec : EqDecision value.
Proof. solve_decision. Defined.

Definition allowed_fields : list string :=
  ["ip"; "port"; "username"; "password"; "protocol"; "country_code"; "tags"].

Definition is_list (v : value) : bool :=
  match v with
  | VList _ => true
  | VStr _ | VInt _ => false
  end.

(** The loop over [updated_fields.items()] (lines 368-380): the first
    offending entry raises; otherwise [update_dict] and [fields_updated]
    grow. *)
Fixpoint edit_collect (updated_fields : list (string * option value))
    (update_dict : list (string * value)) (fields_updated : list string)
  : result (list (string * value) * list string) :=
  match updated_fields with
  | [] => Ret (update_dict, fields_updated)
  | (field, value) :: rest =>
      if bool_decide (field ∈ allowed_fields) then
        match value with
        | None => Raise (HTTPException 400)
        | Some v =>
            if bool_decide (field = "tags") && negb (is_list v)
            then Raise (HTTPException 400)
            else edit_collect rest (dict_set field v update_dict) (fields_updated ++ [field])
        end
      else Raise (HTTPException 400)
  end.

Definition set_ip (v : string) (p : proxy) : proxy :=
  {| _id := _id p; ip := v; port := port p; username := username p;
     password := password p; protocol := protocol p; status := status p;
     country_code := country_code p; instance_id := instance_id p;
     instance_ids := instance_ids p; last_used := last_used p; tags := tags p |}.

Definition set_port (v : Z) (p : proxy) : proxy :=
  {| _id := _id p; ip := ip p; port := v; username := username p;
     password := password p; protocol := protocol p; status := status p;
     country_code := country_code p; instance_id := instance_id p;
     instance_ids := instance_ids p; last_used := last_used p; tags := tags p |}.

Definition set_username (v : option string) (p : proxy) : proxy :=
  {| _id := _id p; ip := ip p; port := port p; username := v;
     password := password p; protocol := protocol p; status := status p;
     country_code := country_code p; instance_id := instance_id p;
     instance_ids := instance_ids p; last_used := last_used p; tags := tags p |}.

Definition set_password (v : option string) (p : proxy) : proxy :=
  {| _id := _id p; ip := ip p; port := port p; username := username p;
     password := v; protocol := protocol p; status := status p;
     country_code := country_code p; instance_id := instance_id p;
     instance_ids := instance_ids p; last_used := last_used p; tags := tags p |}.

Definition set_protocol (v : string) (p : proxy) : proxy :=
  {| _id := _id p; ip := ip p; port := port p; username := username p;
     password := password p; protocol := v; status := status p;
     country_code := country_code p; instance_id := instance_id p;
     instance_ids := instance_ids p; last_used := last_used p; tags := tags p |}.

Definition set_country_code (v : option string) (p : proxy) : proxy :=
  {| _id := _id p; ip := ip p; port := port p; username := username p;
     password := password p; protocol := protocol p; status := status p;
     country_code := v; instance_id := instance_id p;
     instance_ids := instance_ids p; last_used := last_used p; tags := tags p |}.

Definition set_tags (v : list string) (p : proxy) : proxy :=
  {| _id := _id p; ip := ip p; port := port p; username := username p;
     password := password p; protocol := protocol p; status := status p;
     country_code := country_code p; instance_id := instance_id p;
     instance_ids := instance_ids p; last_used := last_used p; tags := v |}.

(** [{"$set": {field: v}}] for one whitelisted field.  A value of another
    type than the field has in the documents above (say a string for
    [port]) is stored by the server all the same; such documents are
    outside the embedding. *)
Definition op_set_field (field : string) (v : value) (d : proxy) : result proxy :=
  match v with
  | VStr s =>
      if decide (field = "ip") then Ret (set_ip s d)
      else if decide (field = "username") then Ret (set_username (Some s) d)
      else if decide (field = "password") then Ret (set_password (Some s) d)
      else if decide (field = "protocol") then Ret (set_protocol s d)
      else if decide (field = "country_code") then Ret (set_country_code (Some s) d)
      else Raise OutsideModel
  | VInt n => if decide (field = "port") then Ret (set_port n d) else Raise OutsideModel
  | VList l => if decide (field = "tags") then Ret (set_tags l d) else Raise OutsideModel
  end.

(** [{"$set": update_dict}]. *)
Fixpoint op_set_fields (update_dict : list (string * value)) (d : proxy) : result proxy :=
  match update_dict with
  | [] => Ret d
  | (field, v) :: rest =>
      match op_set_field field v d with
      | Ret d' => op_set_fields rest d'
      | Raise e => Raise e
      end
  end.

(** [find_one_and_update(..., return_document=ReturnDocument.AFTER)]. *)
Definition find_one_and_update (query : proxy → bool) (update : proxy → result proxy)
  : M (option proxy) :=
  λ self,
    match head (List.filter query (db_proxies self)) with
    | None => (Ret None, self)
    | Some d =>
        match update d, update_first query update (db_proxies self) with
        | Ret d', Ret (c, _) => (Ret (Some d'), with_proxies c self)
        | Raise e, _ | _, Raise e => (Raise e, self)
        end
    end.

Inductive edit_reply : Type :=
| Edited (fields_updated : list string) (updated_proxy : proxy)
| EditNoFields.

(** The model [ProxyModel] built from a stored document as it is (line
    394): the model wants a dict for [instance_ids], so an array fails its
    validation; the other fields above have the types the model asks for. *)
Definition validate (d : proxy) : result unit :=
  match instance_ids d with
  | IdsArray _ => Raise ValidationError
  | IdsMap _ | IdsMissing => Ret ()
  end.

(** [edit_proxy], on the parsed [ObjectId].  The model is built from the
    document after the write, so a failed validation leaves the write in
    place.  The probe it schedules runs later, as its own task. *)
Definition edit_proxy (proxy_id : oid) (updated_fields : list (string * option value))
  : M edit_reply :=
  let* existing_proxy := find_one (by_id proxy_id) in
  match existing_proxy with
  | None => raise (HTTPException 404)
  | Some _ =>
      let* collected := lift (edit_collect updated_fields [] []) in
      let '(update_dict, fields_updated) := collected in
      match update_dict with
      | [] => ret EditNoFields
      | _ :: _ =>
          let* result := find_one_and_update (by_id proxy_id) (op_set_fields update_dict) in
          match result with
          | None => raise (HTTPException 500)
          | Some updated_proxy =>
              let* _ := lift (validate updated_proxy) in
              ret (Edited fields_updated updated_proxy)
          end
      end
  end.

(** *** Country codes (lines 512-549) *)

(** [update_proxy_country_code]: no exception can reach its handler here. *)
Definition update_proxy_country_code (proxy_id : oid) (code : string) : M reply :=
  let* result := update_one (by_id proxy_id) (λ d, Ret (set_country_code (Some code) d)) in
  if decide (modified_count result = 1%nat) then ret ReplySuccess else ret ReplyError.

Section enrichment.
(** The GeoIP lookup of [get_country_code]: the ISO code of an address, or
    [None], also when the reader fails. *)
Variable get_country_code : string → option string.

(** The body of the [for] loop of [background_update_country_codes]. *)
Definition enrich_proxy (proxy : ProxyModel.t) : M unit :=
  match ProxyModel.country_code proxy with
  | Some _ => ret ()
  | None =>
      match get_country_code (ProxyModel.ip proxy) with
      | None | Some EmptyString => ret ()
      | Some code =>
          let* _ := update_proxy_country_code (ProxyModel.id proxy) code in
          ret ()
      end
  end.

(** One iteration of its [while True], up to the [asyncio.sleep]. *)
Definition background_update_country_codes_iteration : M unit :=
  let* proxies := get_proxies None in
  for_each enrich_proxy proxies.
End enrichment.

(** ** Notions used by the statements *)

(** The instance holds a lease on the proxy: [instance_id in
    proxy.instance_ids], the test of [clear_instance_reservation]. *)
Definition holds_lease (inst : string) (d : proxy) : bool :=
  match instance_ids d with
  | IdsMap m => bool_decide (is_Some (dict_get inst m))
  | IdsArray _ | IdsMissing => false
  end.

(** A well-formed lease mapping: a mapping whose keys are field names. *)
Definition well_formed_leases (d : proxy) : Prop :=
  match instance_ids d with
  | IdsMap m => Forall (λ k, plain_field_name k = true) (dict_keys m)
  | IdsArray _ | IdsMissing => True
  end.

(** The data model of the leases: a mapping, or no field. *)
Definition leases_are_mappings (c : list proxy) : Prop :=
  Forall (λ d, ∀ l, instance_ids d ≠ IdsArray l) c.

(** The merge [prev ⊕ patch] of the settings, field by field: the field of
    the patch when it is defined, the previous one otherwise. *)
Definition merged_field (patch_field : option Z) (prev : gmap string Z) (k : string)
  : option Z :=
  match patch_field with
  | Some v => Some v
  | None => prev !! k
  end.

(** No two documents share [(ip, port, protocol)]. *)
Definition same_triple (a b : proxy) : Prop :=
  ip a = ip b ∧ port a = port b ∧ protocol a = protocol b.

Fixpoint triples_unique (c : list proxy) : Prop :=
  match c with
  | [] => True
  | d :: c' => (∀ d', d' ∈ c' → ¬ same_triple d d') ∧ triples_unique c'
  end.

(** The names of the five settings, and a document that has them all. *)
Definition setting_names : list string :=
  ["inactive_proxy_timeout"; "threshold_time_minutes"; "background_check_proxies_interval";
   "max_instances_per_proxy"; "max_proxies_per_instance"].

Definition complete_settings (doc : gmap string Z) : Prop :=
  Forall (λ k, is_Some (doc !! k)) setting_names.

(** The leases of a document of the data model. *)
Definition leases (d : proxy) : list (string * Z) :=
  match instance_ids d with
  | IdsMap m => m
  | IdsArray _ | IdsMissing => []
  end.

(** What one iteration of the sweep makes of a document. *)
Definition expired_keys (threshold_time : Z) (m : list (string * Z)) : list string :=
  dict_keys (filter (λ kv, kv.2 < threshold_time) m).

Definition swept (threshold_time : Z) (d : proxy) : proxy :=
  match instance_ids d with
  | IdsMap m =>
      let expired := expired_keys threshold_time m in
      match expired with
      | [] => d
      | _ :: _ =>
          set_instance_ids (IdsMap (foldr dict_del m expired))
            (if bool_decide (length expired = length m) then set_last_used Missing d else d)
      end
  | IdsArray _ | IdsMissing => d
  end.

(** A document once the leases of an instance are released everywhere. *)
Definition release (inst : string) (d : proxy) : proxy :=
  if holds_lease inst d then set_instance_ids (IdsMap (dict_del inst (leases d))) d else d.

(** An entry of a patch that [edit_proxy] refuses: a field outside the
    whitelist, a [None], or tags that are not a list. *)
Definition rejected_entry (field : string) (v : option value) : Prop :=
  field ∉ allowed_fields ∨ v = None
  ∨ (field = "tags" ∧ ∃ x, v = Some x ∧ is_list x = false).

(** The part of a document that the engine owns: its identity, health and
    leases. *)
Definition engine_state (d : proxy)
  : oid * string * field string * ids_value * field Z :=
  (_id d, status d, instance_id d, instance_ids d, last_used d).

(** A document once the enrichment loop has passed over it. *)
Definition enriched (get_country_code : string → option string) (d : proxy) : proxy :=
  match country_code d with
  | Some _ => d
  | None =>
      match get_country_code (ip d) with
      | None | Some EmptyString => d
      | Some code => set_country_code (Some code) d
      end
  end.

(** *** Sample data for the scenarios *)

Definition sample_proxy (id : oid) (port : Z) (proto st : string) (ids : ids_value)
  : proxy :=
  {| _id := id; ip := "1.2.3.4"; port := port; username := None; password := None;
     protocol := proto; status := st; country_code := None; instance_id := Missing;
     instance_ids := ids; last_used := Missing; tags := [] |}.

(** A manager after start-up on the default settings, but for the two
    capacities. *)
Definition sample_manager (max_instances max_proxies : Z) (c : list proxy)
  : ProxyManagement :=
  {| settings := Some default_settings;
     inactive_proxy_timeout := 10;
     threshold_time_minutes := 10;
     background_check_proxies_interval := 60;
     max_instances_per_proxy := max_instances;
     max_proxies_per_instance := max_proxies;
     db_proxies := c;
     db_proxy_manager_settings := [default_settings] |}.

(** A patch that raises [max_instances_per_proxy] to 5. *)
Definition sample_patch : SettingsModel.t :=
  {| SettingsModel.max_proxies_per_instance := None;
     SettingsModel.max_instances_per_proxy := Some 5;
     SettingsModel.inactive_proxy_timeout := None;
     SettingsModel.background_check_proxies_interval := None;
     SettingsModel.threshold_time_minutes := None |}.

(** Twenty minutes past the epoch, in milliseconds. *)
Definition sample_now : Z := 1200000.

(** Running a scenario: evaluation, the settings documents left folded. *)
Ltac run_scenario := lazy -[default_settings]; repeat split; try congruence.

(** ** Lemmas on dicts *)

Section dict_lemmas.
Context {V : Type}.
Implicit Types (d : list (string * V)) (k : string) (v : V).

Lemma dict_set_length d k v :
  (length (dict_set k v d) ≤ S (length d))%nat.
Proof.
  induction d as [|[k' v'] d IH]; simpl; [lia|].
  destruct (decide (k' = k)); simpl; lia.
Qed.

Lemma dict_set_length_fresh d k v :
  dict_get k d = None → length (dict_set k v d) = S (length d).
Proof.
  induction d as [|[k' v'] d IH]; simpl; [done|].
  destruct (decide (k' = k)); [done|]. intros H. simpl. by rewrite IH.
Qed.

Lemma dict_get_set d k v : dict_get k (dict_set k v d) = Some v.
Proof.
  induction d as [|[k' v'] d IH]; simpl.
  - by rewrite decide_True.
  - destruct (decide (k' = k)); simpl.
    + by rewrite decide_True.
    + by rewrite decide_False.
Qed.

Lemma dict_get_set_ne d k k' v : k ≠ k' → dict_get k' (dict_set k v d) = dict_get k' d.
Proof.
  intros Hne. induction d as [|[k0 v0] d IH]; simpl.
  - by rewrite decide_False.
  - destruct (decide (k0 = k)) as [->|]; simpl.
    + by rewrite !decide_False.
    + destruct (decide (k0 = k')); [done|]. apply IH.
Qed.

Lemma dict_get_del d k : dict_get k (dict_del k d) = None.
Proof.
  unfold dict_del. induction d as [|[k' v'] d IH]; [done|].
  rewrite filter_cons. simpl. destruct (decide (k' ≠ k)); simpl.
  - by rewrite decide_False.
  - apply IH.
Qed.

Lemma dict_get_del_ne d k k' : k ≠ k' → dict_get k' (dict_del k d) = dict_get k' d.
Proof.
  intros Hne. unfold dict_del. induction d as [|[k0 v0] d IH]; [done|].
  rewrite filter_cons. simpl. destruct (decide (k0 ≠ k)) as [|Heq]; simpl.
  - destruct (decide (k0 = k')); [done|]. apply IH.
  - apply dec_stable in Heq. subst k0. by rewrite decide_False.
Qed.

Lemma dict_del_absent d k : dict_get k d = None → dict_del k d = d.
Proof.
  unfold dict_del. induction d as [|[k' v'] d IH]; [done|]. simpl.
  destruct (decide (k' = k)); [done|]. intros H.
  rewrite filter_cons. simpl. rewrite decide_True by done. by rewrite IH.
Qed.

Lemma dict_del_present d k :
  is_Some (dict_get k d) → (length (dict_del k d) < length d)%nat.
Proof.
  unfold dict_del. induction d as [|[k' v'] d IH]; simpl.
  - by intros [? ?].
  - rewrite filter_cons. simpl. destruct (decide (k' = k)) as [->|].
    + intros _. rewrite decide_False by (intros ?; done).
      pose proof (length_filter (λ e : string * V, e.1 ≠ k) d). lia.
    + intros H. rewrite decide_True by done. simpl. specialize (IH H). lia.
Qed.

Lemma elem_of_dict_del d k e : e ∈ dict_del k d ↔ e ∈ d ∧ e.1 ≠ k.
Proof. unfold dict_del. rewrite list_elem_of_filter. tauto. Qed.

Lemma elem_of_foldr_dict_del d ks e :
  e ∈ foldr dict_del d ks ↔ e ∈ d ∧ e.1 ∉ ks.
Proof.
  induction ks as [|k ks IH]; simpl.
  - split; [intros ?; split; [done|apply not_elem_of_nil]|tauto].
  - rewrite elem_of_dict_del, IH, not_elem_of_cons. tauto.
Qed.
End dict_lemmas.

(** ** Lemmas on the store *)

Lemma by_id_true pid d : by_id pid d = true ↔ _id d = pid.
Proof. unfold by_id. apply bool_decide_eq_true. Qed.

Lemma by_id_false pid d : by_id pid d = false ↔ _id d ≠ pid.
Proof. unfold by_id. apply bool_decide_eq_false. Qed.

(** The first match of a filter splits the collection. *)
Lemma head_filter_split {A} (q : A → bool) (c : list A) (d : A) :
  head (List.filter q c) = Some d →
  ∃ l1 l2, c = l1 ++ d :: l2 ∧ Forall (λ x, q x = false) l1 ∧ q d = true.
Proof.
  induction c as [|x c IH]; simpl; [done|].
  destruct (q x) eqn:Hq; simpl.
  - intros [= ->]. exists [], c. by repeat split.
  - intros H. destruct (IH H) as (l1 & l2 & -> & Hl1 & Hd).
    exists (x :: l1), l2. repeat split; [|done]. by constructor.
Qed.

Lemma head_filter_none {A} (q : A → bool) (c : list A) :
  head (List.filter q c) = None → Forall (λ x, q x = false) c.
Proof.
  induction c as [|x c IH]; simpl; [constructor|].
  destruct (q x) eqn:Hq; simpl; [done|]. intros H. constructor; auto.
Qed.

Lemma head_filter_app {A} (q : A → bool) (l1 l2 : list A) (d : A) :
  Forall (λ x, q x = false) l1 → q d = true →
  head (List.filter q (l1 ++ d :: l2)) = Some d.
Proof.
  intros Hl1 Hd. induction Hl1 as [|x l1 Hx _ IH]; simpl.
  - by rewrite Hd.
  - by rewrite Hx.
Qed.

Lemma update_first_miss q u c :
  Forall (λ x, q x = false) c →
  update_first q u c = Ret (c, {| matched_count := 0; modified_count := 0 |}).
Proof.
  induction 1 as [|x c Hx _ IH]; simpl; [done|]. by rewrite Hx, IH.
Qed.

Lemma update_first_hit q u l1 d l2 :
  Forall (λ x, q x = false) l1 → q d = true →
  update_first q u (l1 ++ d :: l2) =
    match u d with
    | Ret d' =>
        Ret (l1 ++ d' :: l2,
             {| matched_count := 1; modified_count := if decide (d' = d) then 0 else 1 |})
    | Raise e => Raise e
    end.
Proof.
  intros Hl1 Hd. induction Hl1 as [|x l1 Hx _ IH]; simpl.
  - rewrite Hd. by destruct (u d).
  - rewrite Hx, IH. by destruct (u d).
Qed.

(** Reading a document back after a write by [_id]. *)
Lemma lookup_after_write pid l1 (d' : proxy) l2 :
  Forall (λ x, by_id pid x = false) l1 → _id d' = pid →
  head (List.filter (by_id pid) (l1 ++ d' :: l2)) = Some d'.
Proof. intros Hl1 Hd. apply head_filter_app; [done|]. by apply by_id_true. Qed.

Lemma set_instance_ids_same v d : set_instance_ids v d = d ↔ instance_ids d = v.
Proof. destruct d; unfold set_instance_ids; simpl. split; [by intros [= ->]|by intros ->]. Qed.

Lemma set_instance_id_same v d : set_instance_id v d = d ↔ instance_id d = v.
Proof. destruct d; unfold set_instance_id; simpl. split; [by intros [= ->]|by intros ->]. Qed.

(** No lease mapping is equal to a string: on the data model, the query
    of the saturation check finds nothing. *)
Lemma instance_ids_equals_blind inst c :
  leases_are_mappings c → List.filter (instance_ids_equals inst) c = [].
Proof.
  induction 1 as [|d c Hd _ IH]; simpl; [done|].
  unfold instance_ids_equals at 1. destruct (instance_ids d) eqn:E; [done..|].
  by destruct (Hd l).
Qed.

Lemma with_proxies_same self : with_proxies (db_proxies self) self = self.
Proof. by destruct self. Qed.

Lemma update_one_hit q u self l1 d l2 :
  db_proxies self = l1 ++ d :: l2 → Forall (λ x, q x = false) l1 → q d = true →
  update_one q u self =
    match u d with
    | Ret d' =>
        (Ret {| matched_count := 1; modified_count := if decide (d' = d) then 0 else 1 |},
         with_proxies (l1 ++ d' :: l2) self)
    | Raise e => (Raise e, self)
    end.
Proof.
  intros Hdb Hl1 Hd. unfold update_one. rewrite Hdb, update_first_hit by done.
  by destruct (u d).
Qed.

Lemma update_one_miss q u self :
  Forall (λ x, q x = false) (db_proxies self) →
  update_one q u self = (Ret {| matched_count := 0; modified_count := 0 |}, self).
Proof.
  intros H. unfold update_one. rewrite update_first_miss by done.
  by rewrite with_proxies_same.
Qed.

Lemma first_with_id_exists (c : list proxy) d :
  d ∈ c → ∃ l1 d' l2, c = l1 ++ d' :: l2 ∧ Forall (λ x, by_id (_id d) x = false) l1
                      ∧ _id d' = _id d.
Proof.
  intros Hin. destruct (head (List.filter (by_id (_id d)) c)) as [d'|] eqn:Hh.
  - apply head_filter_split in Hh as (l1 & l2 & -> & Hl1 & Hd').
    exists l1, d', l2. repeat split; [done|]. by apply by_id_true.
  - apply head_filter_none in Hh. rewrite Forall_forall in Hh.
    specialize (Hh d Hin). apply by_id_false in Hh. done.
Qed.

(** ** Assignment *)

(** The two reads of [assign_proxy_to_instance] leave the state alone. *)
Lemma assign_select_eq inst cc tags self :
  assign_select inst cc tags self =
    (Ret (if bool_decide (max_proxies_per_instance self
                          ≤ Z.of_nat (length (List.filter (instance_ids_equals inst)
                                                (db_proxies self))))
          then Saturated
          else match head (List.filter (candidate_query (max_instances_per_proxy self) cc tags)
                             (db_proxies self)) with
               | None => NoCandidate
               | Some proxy => Candidate proxy
               end),
     self).
Proof.
  unfold assign_select, bind, find, find_one, get_self, ret.
  destruct (bool_decide _); [done|].
  by destruct (head _).
Qed.

Lemma candidate_query_capacity max cc tags d m :
  candidate_query max cc tags d = true → instance_ids d = IdsMap m →
  Z.of_nat (length m) < max.
Proof.
  unfold candidate_query, where_below_capacity. intros H Hm. rewrite Hm in H.
  rewrite !andb_true_iff in H. destruct H as [[[_ H] _] _].
  by apply bool_decide_eq_true in H.
Qed.

Lemma assign_leases_length timeout d inst now new m :
  assign_leases timeout d inst now = Ret new → instance_ids d = IdsMap m →
  (length new ≤ S (length m))%nat.
Proof.
  unfold assign_leases. intros H Hm. rewrite Hm in H. injection H as <-.
  etrans; [apply dict_set_length|]. apply le_n_S, length_filter.
Qed.

(** The write of the assignment: whatever document the store holds under
    the [_id] of the candidate takes the new mapping. *)
Lemma assign_commit_hit proxy new srv self l1 d l2 :
  db_proxies self = l1 ++ d :: l2 →
  Forall (λ x, by_id (_id proxy) x = false) l1 →
  _id d = _id proxy →
  assign_commit proxy new srv self =
    if decide (instance_ids d = IdsMap new) then (Ret (AssignFailed (_id proxy)), self)
    else (Ret (Assigned (_id proxy) (ip proxy) (port proxy) (username proxy)
                 (password proxy) (protocol proxy)),
          with_proxies
            (l1 ++ set_last_used (Value srv) (set_instance_ids (IdsMap new) d) :: l2) self).
Proof.
  intros Hdb Hl1 Hd. unfold assign_commit, bind. cbv zeta.
  rewrite (update_one_hit _ _ _ l1 d l2 Hdb Hl1) by (by apply by_id_true).
  unfold op_set_instance_ids.
  destruct (decide (instance_ids d = IdsMap new)) as [Heq|Hne].
  - assert (set_instance_ids (IdsMap new) d = d) as -> by (by apply set_instance_ids_same).
    rewrite (decide_True (P := d = d)) by done.
    simpl. by rewrite <- Hdb, with_proxies_same.
  - rewrite (decide_False (P := set_instance_ids (IdsMap new) d = d))
      by (by rewrite set_instance_ids_same).
    simpl. unfold update_last_used, bind.
    rewrite (update_one_hit _ _ _ l1 (set_instance_ids (IdsMap new) d) l2)
      by (try done; by apply by_id_true).
    done.
Qed.

(** C1. After an assignment that succeeds, the proxy it returns holds at
    most [max_instances_per_proxy] leases. *)
Theorem assign_respects_capacity inst cc tags now srv self self' pid i p u pw pr :
  assign_proxy_to_instance inst cc tags now srv self = (Ret (Assigned pid i p u pw pr), self') →
  ∃ d m, get_proxy pid self' = Some d ∧ instance_ids d = IdsMap m
         ∧ Z.of_nat (length m) ≤ max_instances_per_proxy self'.
Proof.
  unfold assign_proxy_to_instance, bind. rewrite assign_select_eq.
  destruct (bool_decide _); [done|].
  destruct (head _) as [proxy|] eqn:Hcand; [|done].
  unfold get_self, lift.
  destruct (assign_leases _ proxy inst now) as [new|e] eqn:Hnew; [|done].
  apply head_filter_split in Hcand as (k1 & k2 & Hdb & _ & Hq).
  assert (proxy ∈ db_proxies self) as Hin by (rewrite Hdb; set_solver).
  destruct (first_with_id_exists _ _ Hin) as (l1 & d & l2 & Hdb' & Hl1 & Hid).
  rewrite (assign_commit_hit _ _ _ _ l1 d l2 Hdb' Hl1 Hid).
  destruct (decide (instance_ids d = IdsMap new)); [done|].
  intros [= <- <- <- <- <- <- <-].
  exists (set_last_used (Value srv) (set_instance_ids (IdsMap new) d)), new.
  split; [|split]; [| done |].
  - unfold get_proxy. simpl. by apply lookup_after_write.
  - simpl. unfold assign_leases in Hnew.
    destruct (instance_ids proxy) as [|m|] eqn:Hm; [done| |done].
    pose proof (candidate_query_capacity _ _ _ _ _ Hq Hm).
    pose proof (assign_leases_length (inactive_proxy_timeout self) proxy inst now new m) as Hlen.
    unfold assign_leases in Hlen. rewrite Hm in Hlen. specialize (Hlen Hnew eq_refl). lia.
Qed.

Lemma assign_respects_capacity_witness :
  let self :=
    sample_manager 2 1 [sample_proxy 1 8080 "HTTP" "UP" (IdsMap [("i1", sample_now - 60000)])] in
  let self' := (assign_proxy_to_instance "i2" None None sample_now (sample_now + 1) self).2 in
  ∃ d m, get_proxy 1 self' = Some d ∧ instance_ids d = IdsMap m
         ∧ Z.of_nat (length m) ≤ max_instances_per_proxy self'.
Proof.
  intros self self'.
  apply (assign_respects_capacity "i2" None None sample_now (sample_now + 1) self
           self' 1%N "1.2.3.4" 8080 None None "HTTP").
  reflexivity.
Defined.

(** C2, as stated, fails: the write is not conditional on the mapping that
    was read.  A request for ["i2"] reads the candidate, whose one lease is
    that of ["i9"], a minute old, and computes its new mapping; ["i9"]
    refreshes its lease before the write; the write still lands and reports
    success, though the stored mapping is no longer the one read, and it
    puts the old time stamp of ["i9"] back. *)
Lemma assign_commit_overwrites_concurrent_write :
  let read := [("i9", sample_now - 60000)] in
  let p0 := sample_proxy 1 8080 "HTTP" "UP" (IdsMap read) in
  let self0 := sample_manager 2 1 [p0] in
  let new := [("i9", sample_now - 60000); ("i2", sample_now)] in
  let self1 := (API.refresh_proxy_usage 1 (Some "i9") sample_now self0).2 in
  assign_select "i2" None None self0 = (Ret (Candidate p0), self0)
  ∧ assign_leases (inactive_proxy_timeout self0) p0 "i2" sample_now = Ret new
  ∧ instance_ids <$> get_proxy 1 self1 = Some (IdsMap [("i9", sample_now)])
  ∧ instance_ids <$> get_proxy 1 self1 ≠ Some (IdsMap read)
  ∧ (assign_commit p0 new (sample_now + 1) self1).1
    = Ret (Assigned 1 "1.2.3.4" 8080 None None "HTTP")
  ∧ instance_ids <$> get_proxy 1 (assign_commit p0 new (sample_now + 1) self1).2
    = Some (IdsMap new).
Proof. run_scenario. Qed.

(** C2, amended.  The write of [assign_proxy_to_instance] replaces the
    mapping of the document found under the [_id] of the candidate, whatever
    that document holds at the time: it lands, and the reply is the
    assignment, exactly when the stored field differs from the new mapping;
    otherwise, or with no such document, the reply is the error ["Failed to
    assign"], the state is unchanged and nothing is tried again. *)
Theorem assign_commit_unconditional proxy new srv self :
  match get_proxy (_id proxy) self with
  | Some d =>
      if decide (instance_ids d = IdsMap new)
      then assign_commit proxy new srv self = (Ret (AssignFailed (_id proxy)), self)
      else ∃ self',
          assign_commit proxy new srv self =
            (Ret (Assigned (_id proxy) (ip proxy) (port proxy) (username proxy)
                    (password proxy) (protocol proxy)), self')
          ∧ get_proxy (_id proxy) self'
            = Some (set_last_used (Value srv) (set_instance_ids (IdsMap new) d))
  | None => assign_commit proxy new srv self = (Ret (AssignFailed (_id proxy)), self)
  end.
Proof.
  unfold get_proxy. destruct (head _) as [d|] eqn:Hd.
  - apply head_filter_split in Hd as (l1 & l2 & Hdb & Hl1 & Hid).
    apply by_id_true in Hid.
    rewrite (assign_commit_hit _ _ _ _ l1 d l2 Hdb Hl1 Hid).
    destruct (decide (instance_ids d = IdsMap new)); [done|].
    eexists. split; [done|]. simpl. by apply lookup_after_write.
  - apply head_filter_none in Hd. unfold assign_commit, bind. cbv zeta.
    by rewrite update_one_miss.
Qed.

(** C3, on the code.  The instance ["i1"] holds a lease on the first proxy,
    which is the most [max_proxies_per_instance = 1] allows; the query of
    the saturation check compares the lease mapping with the string, finds
    no document, and the assignment goes on to lease the second proxy. *)
Theorem assign_misses_saturation :
  let held :=
    sample_proxy 1 8080 "HTTP" "UP"
      (IdsMap [("i1", sample_now - 1000); ("i2", sample_now - 1000)]) in
  let free := sample_proxy 2 8081 "HTTP" "UP" (IdsMap []) in
  let self := sample_manager 2 1 [held; free] in
  let r := assign_proxy_to_instance "i1" None None sample_now (sample_now + 1) self in
  max_proxies_per_instance self
    ≤ Z.of_nat (length (List.filter (holds_lease "i1") (db_proxies self)))
  ∧ r.1 = Ret (Assigned 2 "1.2.3.4" 8081 None None "HTTP")
  ∧ length (List.filter (holds_lease "i1") (db_proxies r.2)) = 2%nat.
Proof. run_scenario. Qed.

(** On the data model the saturation reply is out of reach, whatever the
    leases: the check counts no document. *)
Lemma assign_never_saturated inst cc tags self :
  leases_are_mappings (db_proxies self) → 0 < max_proxies_per_instance self →
  (assign_select inst cc tags self).1 ≠ Ret Saturated.
Proof.
  intros Hshape Hmax. rewrite assign_select_eq. simpl.
  rewrite instance_ids_equals_blind by done. simpl.
  rewrite bool_decide_eq_false_2 by lia. by destruct (head _).
Qed.

(** C4, as stated, fails: with [max_instances_per_proxy = 1] the stale
    lease still counts in the candidate query, which runs before the
    pruning, and no proxy is found. *)
Lemma stale_lease_blocks_full_proxy :
  let p :=
    sample_proxy 1 8080 "HTTP" "UP" (IdsMap [("i1", sample_now - timedelta_minutes 11)]) in
  let self := sample_manager 1 1 [p] in
  inactive_proxy_timeout self = 10
  ∧ assign_proxy_to_instance "i2" None None sample_now (sample_now + 1) self
    = (Ret NoProxyAvailable, self).
Proof. run_scenario. Qed.

(** What [assign_leases] keeps: the lease of the caller, stamped now, and
    the leases strictly newer than the timeout. *)
Lemma assign_leases_fresh timeout d m inst now new k t :
  instance_ids d = IdsMap m → assign_leases timeout d inst now = Ret new →
  dict_get k new = Some t →
  (k = inst ∧ t = now) ∨ (now - timedelta_minutes timeout < t ∧ (k, t) ∈ m).
Proof.
  unfold assign_leases. intros -> [= <-].
  destruct (decide (inst = k)) as [->|Hne].
  - rewrite dict_get_set. intros [= <-]. by left.
  - rewrite dict_get_set_ne by done. intros Hget. right.
    assert ((k, t) ∈ filter (λ kv : string * Z, now - timedelta_minutes timeout < kv.2) m)
      as Hin.
    { revert Hget. generalize (filter (λ kv : string * Z, now - timedelta_minutes timeout < kv.2) m).
      intros l. induction l as [|[k' v'] l IH]; simpl; [done|].
      destruct (decide (k' = k)) as [->|]; [intros [= ->]; left|intros ?; right; auto]. }
    apply list_elem_of_filter in Hin. simpl in Hin. tauto.
Qed.

(** C4, amended.  A single UP proxy whose one lease is not newer than the
    timeout, with room for a second lease under [max_instances_per_proxy]:
    assigning for another instance succeeds and leaves exactly the new
    lease. *)
Theorem assign_prunes_stale_lease self p i1 i2 t now srv :
  db_proxies self = [p] →
  status p = "UP" →
  instance_ids p = IdsMap [(i1, t)] →
  t ≤ now - timedelta_minutes (inactive_proxy_timeout self) →
  i2 ≠ i1 →
  1 < max_instances_per_proxy self →
  0 < max_proxies_per_instance self →
  assign_proxy_to_instance i2 None None now srv self =
    (Ret (Assigned (_id p) (ip p) (port p) (username p) (password p) (protocol p)),
     with_proxies [set_last_used (Value srv) (set_instance_ids (IdsMap [(i2, now)]) p)] self).
Proof.
  intros Hdb Hup Hids Hold Hne Hcap Hsat.
  assert (instance_ids_equals i2 p = false) as Heq
    by (unfold instance_ids_equals; by rewrite Hids).
  assert (candidate_query (max_instances_per_proxy self) None None p = true) as Hq.
  { unfold candidate_query, where_below_capacity. rewrite Hup, Hids.
    rewrite (bool_decide_eq_true_2 (Z.of_nat _ < _)) by (simpl; lia). reflexivity. }
  assert (assign_leases (inactive_proxy_timeout self) p i2 now = Ret [(i2, now)]) as Hnew.
  { unfold assign_leases. rewrite Hids, filter_cons. simpl.
    rewrite decide_False by lia. by rewrite filter_nil. }
  unfold assign_proxy_to_instance, bind. rewrite assign_select_eq, Hdb. simpl.
  rewrite Heq, Hq. simpl. rewrite bool_decide_eq_false_2 by lia.
  unfold get_self, lift. rewrite Hnew.
  rewrite (assign_commit_hit _ _ _ _ [] p [] Hdb) by done.
  rewrite Hids. rewrite decide_False by congruence. done.
Qed.

Lemma assign_prunes_stale_lease_witness :
  let p :=
    sample_proxy 1 8080 "HTTP" "UP" (IdsMap [("i1", sample_now - timedelta_minutes 11)]) in
  let self := sample_manager 2 1 [p] in
  assign_proxy_to_instance "i2" None None sample_now (sample_now + 1) self =
    (Ret (Assigned 1 "1.2.3.4" 8080 None None "HTTP"),
     with_proxies
       [set_last_used (Value (sample_now + 1))
          (set_instance_ids (IdsMap [("i2", sample_now)]) p)] self).
Proof.
  intros p self.
  apply (assign_prunes_stale_lease self p "i1" "i2" (sample_now - timedelta_minutes 11)
           sample_now (sample_now + 1)).
  - reflexivity.
  - reflexivity.
  - reflexivity.
  - vm_compute. discriminate.
  - discriminate.
  - reflexivity.
  - reflexivity.
Defined.

(** ** The expiry sweep *)

Lemma swept_id thr d : _id (swept thr d) = _id d.
Proof.
  unfold swept, expired_keys. destruct (instance_ids d); [done| |done].
  destruct (dict_keys _); [done|]. simpl. by destruct (bool_decide _).
Qed.

Lemma expired_keys_plain thr m :
  Forall (λ k, plain_field_name k = true) (dict_keys m) →
  forallb plain_field_name (expired_keys thr m) = true.
Proof.
  intros Hm. apply forallb_forall. intros k Hk. apply list_elem_of_In in Hk.
  unfold expired_keys, dict_keys in Hk.
  apply list_elem_of_fmap in Hk as ([k' t] & -> & Hin).
  apply list_elem_of_filter in Hin as [_ Hin].
  rewrite Forall_forall in Hm. apply Hm. unfold dict_keys.
  apply list_elem_of_fmap. by exists (k', t).
Qed.

(** One pass of the loop body over a document of the snapshot that is
    still the one in the store. *)
Lemma sweep_proxy_eq thr self l1 d l2 :
  db_proxies self = l1 ++ d :: l2 →
  Forall (λ x, by_id (_id d) x = false) l1 →
  well_formed_leases d →
  sweep_proxy thr d self = (Ret (), with_proxies (l1 ++ swept thr d :: l2) self).
Proof.
  intros Hdb Hl1 Hwf. unfold sweep_proxy, swept, well_formed_leases, expired_keys in *.
  destruct (instance_ids d) as [|m|l] eqn:Hm;
    try (unfold ret; by rewrite <- Hdb, with_proxies_same).
  pose proof (expired_keys_plain thr m Hwf) as Hplain. unfold expired_keys in Hplain.
  destruct (dict_keys (filter _ m)) as [|k ks] eqn:Hexp;
    [unfold ret; by rewrite <- Hdb, with_proxies_same|].
  unfold bind.
  rewrite (update_one_hit _ _ _ l1 d l2 Hdb Hl1) by (by apply by_id_true).
  unfold op_unset. rewrite Hplain, Hm. done.
Qed.

Lemma for_each_sweep thr todo : ∀ done self,
  db_proxies self = (swept thr <$> done) ++ todo →
  NoDup (_id <$> (done ++ todo)) →
  Forall well_formed_leases todo →
  for_each (sweep_proxy thr) todo self =
    (Ret (), with_proxies (swept thr <$> (done ++ todo)) self).
Proof.
  induction todo as [|d todo IH]; intros done self Hdb Hnd Hwf; simpl.
  - rewrite app_nil_r in *. unfold ret. by rewrite <- Hdb, with_proxies_same.
  - inversion Hwf as [|? ? Hd Htodo]; subst.
    assert (Forall (λ x, by_id (_id d) x = false) (swept thr <$> done)) as Hl1.
    { apply Forall_fmap, Forall_forall. intros x Hx. simpl.
      apply by_id_false. rewrite swept_id. intros Heq.
      rewrite fmap_app in Hnd. apply NoDup_app in Hnd as (_ & Hdisj & _).
      apply (Hdisj (_id x)); [by apply list_elem_of_fmap_2|].
      rewrite Heq. simpl. left. }
    unfold bind. rewrite (sweep_proxy_eq thr self _ d todo Hdb Hl1 Hd).
    rewrite (IH (done ++ [d]) (with_proxies _ self)).
    + by rewrite <- app_assoc.
    + simpl. by rewrite fmap_app, <- app_assoc.
    + by rewrite <- app_assoc.
    + done.
Qed.

Lemma filter_all {A} (l : list A) : List.filter (λ _, true) l = l.
Proof. induction l; simpl; by f_equal. Qed.

Lemma clear_inactive_proxies_iteration_eq now self :
  NoDup (_id <$> db_proxies self) →
  Forall well_formed_leases (db_proxies self) →
  clear_inactive_proxies_iteration now self =
    (Ret (),
     with_proxies
       (swept (now - timedelta_minutes (threshold_time_minutes self)) <$> db_proxies self)
       self).
Proof.
  intros Hnd Hwf. unfold clear_inactive_proxies_iteration, bind, get_self, find.
  rewrite filter_all. by apply (for_each_sweep _ _ [] self).
Qed.

Lemma in_expired_keys thr (m : list (string * Z)) i t :
  (i, t) ∈ m → t < thr → i ∈ expired_keys thr m.
Proof.
  intros Hin Hlt. unfold expired_keys, dict_keys.
  apply list_elem_of_fmap. exists (i, t). split; [done|].
  by apply list_elem_of_filter.
Qed.

Lemma swept_leases thr d m :
  instance_ids d = IdsMap m →
  instance_ids (swept thr d) = IdsMap (foldr dict_del m (expired_keys thr m)).
Proof.
  intros Hd. unfold swept. rewrite Hd. cbv zeta.
  destruct (expired_keys thr m); [done|]. by destruct (bool_decide _).
Qed.

Lemma swept_fresh thr d m i t :
  instance_ids (swept thr d) = IdsMap m → (i, t) ∈ m → thr ≤ t.
Proof.
  destruct (instance_ids d) as [|m0|l] eqn:Hd.
  - unfold swept. rewrite Hd. congruence.
  - rewrite (swept_leases thr d m0 Hd). intros [= <-] Hin.
    apply elem_of_foldr_dict_del in Hin as [Hin Hout].
    destruct (decide (t < thr)) as [Hlt|]; [|lia].
    destruct Hout. by apply (in_expired_keys thr m0 i t).
  - unfold swept. rewrite Hd. congruence.
Qed.

Lemma swept_all_expired thr d m :
  instance_ids d = IdsMap m → m ≠ [] → Forall (λ kv, kv.2 < thr) m →
  instance_ids (swept thr d) = IdsMap [] ∧ last_used (swept thr d) = Missing.
Proof.
  intros Hd Hne Hall. unfold swept, expired_keys. rewrite Hd.
  assert (filter (λ kv : string * Z, kv.2 < thr) m = m) as ->.
  { clear Hd Hne. induction Hall as [|e m He _ IH]; [done|].
    rewrite filter_cons. rewrite decide_True by done. by rewrite IH. }
  unfold dict_keys. destruct (m.*1) as [|k ks] eqn:Hk.
  { destruct m; [done|discriminate]. }
  rewrite <- Hk. rewrite bool_decide_eq_true_2 by apply length_fmap. simpl.
  split; [|done]. f_equal.
  destruct (foldr dict_del m (m.*1)) as [|e rest] eqn:Hrest; [done|].
  assert (e ∈ foldr dict_del m (m.*1)) as Hin by (rewrite Hrest; left).
  apply elem_of_foldr_dict_del in Hin as [Hin Hout].
  destruct Hout. by apply list_elem_of_fmap_2.
Qed.

Lemma lookup_fmap_by_id (f : proxy → proxy) (c : list proxy) d :
  (∀ x, _id (f x) = _id x) → NoDup (_id <$> c) → d ∈ c →
  head (List.filter (by_id (_id d)) (f <$> c)) = Some (f d).
Proof.
  intros Hf. induction c as [|x c IH]; simpl; intros Hnd Hin.
  - by apply not_elem_of_nil in Hin.
  - apply NoDup_cons in Hnd as [Hx Hnd]. apply elem_of_cons in Hin as [->|Hin].
    + assert (by_id (_id x) (f x) = true) as -> by (by apply by_id_true). done.
    + assert (by_id (_id d) (f x) = false) as ->.
      { apply by_id_false. rewrite Hf. intros Heq. apply Hx. rewrite Heq.
        by apply list_elem_of_fmap_2. }
      by apply IH.
Qed.

(** C5. One iteration of the sweep at time [now], on a collection whose
    lease mappings are well formed: every lease that remains is at least as
    new as [now - threshold_time_minutes], and a proxy whose leases were all
    expired is left with an empty mapping and without [last_used]. *)
Theorem sweep_leaves_fresh_leases now self :
  NoDup (_id <$> db_proxies self) →
  Forall well_formed_leases (db_proxies self) →
  ∃ self',
    clear_inactive_proxies_iteration now self = (Ret (), self')
    ∧ (∀ d m i t,
         d ∈ db_proxies self' → instance_ids d = IdsMap m → (i, t) ∈ m →
         now - timedelta_minutes (threshold_time_minutes self) ≤ t)
    ∧ (∀ d m,
         d ∈ db_proxies self → instance_ids d = IdsMap m → m ≠ [] →
         Forall (λ kv, kv.2 < now - timedelta_minutes (threshold_time_minutes self)) m →
         ∃ d', get_proxy (_id d) self' = Some d'
               ∧ instance_ids d' = IdsMap [] ∧ last_used d' = Missing).
Proof.
  intros Hnd Hwf. eexists. split; [by apply clear_inactive_proxies_iteration_eq|].
  simpl. split.
  - intros d m i t Hd Hm Hin.
    apply list_elem_of_fmap in Hd as (d0 & -> & _). by eapply swept_fresh.
  - intros d m Hd Hm Hne Hall. eexists. split.
    + unfold get_proxy. simpl. apply lookup_fmap_by_id; [apply swept_id|done..].
    + by eapply swept_all_expired.
Qed.

Lemma sweep_leaves_fresh_leases_witness :
  let self :=
    sample_manager 2 1
      [sample_proxy 1 8080 "HTTP" "UP" (IdsMap [("i1", sample_now - timedelta_minutes 20)]);
       sample_proxy 2 8081 "HTTP" "UP"
         (IdsMap [("i1", sample_now - timedelta_minutes 20); ("i2", sample_now - 1)])] in
  ∃ self',
    clear_inactive_proxies_iteration sample_now self = (Ret (), self')
    ∧ (∀ d m i t,
         d ∈ db_proxies self' → instance_ids d = IdsMap m → (i, t) ∈ m →
         sample_now - timedelta_minutes (threshold_time_minutes self) ≤ t)
    ∧ (∀ d m,
         d ∈ db_proxies self → instance_ids d = IdsMap m → m ≠ [] →
         Forall (λ kv, kv.2 < sample_now - timedelta_minutes (threshold_time_minutes self)) m →
         ∃ d', get_proxy (_id d) self' = Some d'
               ∧ instance_ids d' = IdsMap [] ∧ last_used d' = Missing).
Proof.
  intros self. apply (sweep_leaves_fresh_leases sample_now self).
  - apply (bool_decide_unpack _). vm_compute. exact I.
  - repeat constructor.
Defined.

(** ** Registration *)

Lemma triple_query_true proxy_data d :
  triple_query proxy_data d = true ↔ same_triple d proxy_data.
Proof.
  unfold triple_query, same_triple. rewrite !andb_true_iff, !bool_decide_eq_true. tauto.
Qed.

Lemma head_filter_is_Some {A} (q : A → bool) (c : list A) :
  is_Some (head (List.filter q c)) ↔ ∃ x, x ∈ c ∧ q x = true.
Proof.
  split.
  - intros [d Hd]. apply head_filter_split in Hd as (l1 & l2 & -> & _ & Hq).
    exists d. split; [|done]. apply elem_of_app. right. left.
  - intros (x & Hx & Hq). destruct (head (List.filter q c)) eqn:Hh; [done|].
    apply head_filter_none in Hh. rewrite Forall_forall in Hh.
    specialize (Hh x Hx). congruence.
Qed.

Lemma add_proxy_eq proxy_data self :
  add_proxy proxy_data self =
    match head (List.filter (triple_query proxy_data) (db_proxies self)) with
    | Some _ => (Raise (HTTPException 400), self)
    | None =>
        if existsb (λ d, bool_decide (_id d = _id proxy_data)) (db_proxies self)
        then (Raise (HTTPException 500), self)
        else (Ret (_id proxy_data), with_proxies (db_proxies self ++ [proxy_data]) self)
    end.
Proof.
  unfold add_proxy, reraise_as_500, bind, find_one, insert_one, raise, ret.
  destruct (head _); [done|]. by destruct (existsb _ _).
Qed.

Lemma triples_unique_snoc c d :
  triples_unique c → (∀ d', d' ∈ c → ¬ same_triple d' d) → triples_unique (c ++ [d]).
Proof.
  induction c as [|x c IH]; simpl.
  - intros _ _. split; [|done]. intros d' Hd'. by apply not_elem_of_nil in Hd'.
  - intros [Hx Hc] Hd. split.
    + intros d' Hd'. apply elem_of_app in Hd' as [Hd'|Hd'].
      * by apply Hx.
      * apply list_elem_of_singleton in Hd' as ->. apply Hd. left.
    + apply IH; [done|]. intros d' Hd'. apply Hd. by right.
Qed.

(** C6, as stated, fails: the protocol is compared as written.  After
    ["HTTP"] on [1.2.3.4:8080], the same endpoint with ["http"] is
    accepted, and the collection holds both. *)
Lemma add_proxy_protocol_case_differs :
  let first := sample_proxy 1 8080 "HTTP" "UNKNOWN" (IdsMap []) in
  let second := sample_proxy 2 8080 "http" "UNKNOWN" (IdsMap []) in
  let self1 := (add_proxy first (sample_manager 2 1 [])).2 in
  ip second = ip first ∧ port second = port first
  ∧ upper (protocol second) = upper (protocol first)
  ∧ db_proxies self1 = [first]
  ∧ add_proxy second self1 = (Ret 2%N, with_proxies [first; second] self1).
Proof. run_scenario. Qed.

(** C6, amended.  [add_proxy] fails with the duplicate error (400), and
    inserts nothing, exactly when a stored proxy has the same [ip], [port]
    and [protocol], the protocol compared as written; after a successful
    call, a second call with the same triple fails so; and [add_proxy]
    keeps the triples of the collection distinct. *)
Theorem add_proxy_duplicate proxy_data self :
  (add_proxy proxy_data self = (Raise (HTTPException 400), self)
   ↔ ∃ d, d ∈ db_proxies self ∧ same_triple d proxy_data)
  ∧ (∀ self' again,
       add_proxy proxy_data self = (Ret (_id proxy_data), self') →
       same_triple proxy_data again →
       add_proxy again self' = (Raise (HTTPException 400), self'))
  ∧ (triples_unique (db_proxies self) →
     triples_unique (db_proxies (add_proxy proxy_data self).2)).
Proof.
  rewrite add_proxy_eq.
  pose proof (head_filter_is_Some (triple_query proxy_data) (db_proxies self)) as Hdup.
  destruct (head _) as [d0|] eqn:Hh.
  - split; [|split]; [|done..].
    split; [intros _|done].
    destruct (proj1 Hdup (mk_is_Some _ _ eq_refl)) as (x & Hx & Hq).
    exists x. split; [done|]. by apply triple_query_true.
  - assert (∀ d, d ∈ db_proxies self → ¬ same_triple d proxy_data) as Hnone.
    { intros d Hd Hsame. destruct (proj2 Hdup) as [? ?]; [|done].
      exists d. split; [done|]. by apply triple_query_true. }
    split; [|split].
    + split.
      * by destruct (existsb _ _).
      * intros (d & Hd & Hsame). by destruct (Hnone d Hd).
    + intros self' again. destruct (existsb _ _); [done|]. intros [= <-] Hsame.
      rewrite add_proxy_eq.
      destruct (head (List.filter (triple_query again) _)) eqn:Hh'; [done|].
      apply head_filter_none in Hh'. rewrite Forall_forall in Hh'.
      specialize (Hh' proxy_data). simpl in Hh'.
      assert (triple_query again proxy_data = true) as Hq by (by apply triple_query_true).
      rewrite Hh' in Hq; [done|]. apply elem_of_app. right. left.
    + intros Huniq. destruct (existsb _ _); [done|]. simpl.
      by apply triples_unique_snoc.
Qed.

Lemma add_proxy_duplicate_witness :
  let first := sample_proxy 1 8080 "HTTP" "UNKNOWN" (IdsMap []) in
  let self := sample_manager 2 1 [] in
  let self' := with_proxies [first] self in
  add_proxy first self = (Ret 1%N, self')
  ∧ add_proxy (sample_proxy 2 8080 "HTTP" "UP" IdsMissing) self'
    = (Raise (HTTPException 400), self')
  ∧ triples_unique (db_proxies (add_proxy first self).2).
Proof.
  intros first self self'.
  assert (add_proxy first self = (Ret 1%N, self')) as Hfirst by reflexivity.
  destruct (add_proxy_duplicate first self) as (_ & Htwice & Huniq).
  split; [exact Hfirst|]. split.
  - apply (Htwice self' (sample_proxy 2 8080 "HTTP" "UP" IdsMissing) Hfirst).
    repeat split.
  - apply Huniq. exact I.
Defined.

(** ** Settings *)

(** A field of the dump is the field of the model. *)
Lemma lookup_dump (l : list (string * option Z)) (k : string) :
  NoDup l.*1 →
  (list_to_map (omap (λ kv : string * option Z, (λ v, (kv.1, v)) <$> kv.2) l)
     : gmap string Z) !! k
  = default None ((list_to_map l : gmap string (option Z)) !! k).
Proof.
  induction l as [|[k' [v|]] l IH]; simpl; intros Hnd.
  - by rewrite !lookup_empty.
  - apply NoDup_cons in Hnd as [_ Hnd]. rewrite !lookup_insert.
    destruct (decide (k' = k)); [done|]. by apply IH.
  - apply NoDup_cons in Hnd as [Hk' Hnd]. rewrite lookup_insert.
    destruct (decide (k' = k)) as [<-|]; [|by apply IH].
    etrans; [by apply IH|]. by rewrite (not_elem_of_list_to_map_1 _ _ Hk').
Qed.

Lemma items_NoDup patch : NoDup (SettingsModel.items patch).*1.
Proof. apply (bool_decide_unpack _). vm_compute. exact I. Qed.

(** The merge written by [$set] is the merge field by field. *)
Lemma merged_fields patch prev :
  let merged := SettingsModel.model_dump_exclude_none patch ∪ prev in
  merged !! "max_proxies_per_instance"
    = merged_field (SettingsModel.max_proxies_per_instance patch) prev
        "max_proxies_per_instance"
  ∧ merged !! "max_instances_per_proxy"
    = merged_field (SettingsModel.max_instances_per_proxy patch) prev
        "max_instances_per_proxy"
  ∧ merged !! "inactive_proxy_timeout"
    = merged_field (SettingsModel.inactive_proxy_timeout patch) prev
        "inactive_proxy_timeout"
  ∧ merged !! "background_check_proxies_interval"
    = merged_field (SettingsModel.background_check_proxies_interval patch) prev
        "background_check_proxies_interval"
  ∧ merged !! "threshold_time_minutes"
    = merged_field (SettingsModel.threshold_time_minutes patch) prev
        "threshold_time_minutes".
Proof.
  unfold SettingsModel.model_dump_exclude_none, merged_field.
  repeat split; rewrite lookup_union, lookup_dump by apply items_NoDup;
    unfold SettingsModel.items; simplify_map_eq;
    match goal with |- ?o ∪ _ = _ => destruct o end;
    simpl; try done; by destruct (prev !! _).
Qed.

Lemma load_settings_existing self doc rest v1 v2 v3 v4 v5 :
  db_proxy_manager_settings self = doc :: rest →
  doc !! "inactive_proxy_timeout" = Some v1 →
  doc !! "threshold_time_minutes" = Some v2 →
  doc !! "background_check_proxies_interval" = Some v3 →
  doc !! "max_instances_per_proxy" = Some v4 →
  doc !! "max_proxies_per_instance" = Some v5 →
  load_settings self =
    (Ret doc,
     Build_ProxyManagement (settings self) v1 v2 v3 v4 v5 (db_proxies self) (doc :: rest)).
Proof.
  intros Hdb H1 H2 H3 H4 H5.
  unfold load_settings, bind, settings_find_one, subscript. rewrite Hdb. simpl.
  rewrite H1. simpl. rewrite H2. simpl. rewrite H3. simpl. rewrite H4. simpl.
  rewrite H5. simpl. destruct self; simpl in *. by subst.
Qed.

Lemma update_settings_empty patch self :
  SettingsModel.model_dump_exclude_none patch = ∅ →
  update_settings patch self = (Raise (HTTPException 400), self).
Proof.
  intros Hempty. unfold update_settings, reraise_as_500. cbv zeta.
  by rewrite decide_True.
Qed.

(** C7, as stated, fails.  After start-up on the defaults, a patch that
    raises [max_instances_per_proxy] to 5 is accepted and stored, and the
    attribute the engine reads is 5; but the snapshot [self.settings], which
    [get_settings] returns, is still the default document, with 2.  And on
    a stored document that lacks settings the patch does not bring, the
    merge is stored and the re-load raises: the call ends in the error
    500. *)
Lemma update_settings_leaves_snapshot_stale :
  let self := sample_manager 2 1 [] in
  let r := update_settings sample_patch self in
  let partial :=
    with_settings_collection [SettingsModel.model_dump_exclude_none sample_patch] self in
  let stored (s : ProxyManagement) :=
    (λ doc : gmap string Z, doc !! "max_instances_per_proxy")
      <$> db_proxy_manager_settings s in
  (∃ updated_settings, r.1 = Ret updated_settings)
  ∧ stored r.2 = [Some 5]
  ∧ max_instances_per_proxy r.2 = 5
  ∧ (get_settings r.2).1 = Ret (Some default_settings)
  ∧ default_settings !! "max_instances_per_proxy" = Some 2
  ∧ (update_settings sample_patch partial).1 = Raise (HTTPException 500)
  ∧ stored (update_settings sample_patch partial).2 = [Some 5].
Proof.
  cbv zeta.
  split; [eexists; vm_compute; reflexivity|].
  split; [vm_compute; reflexivity|]. split; [vm_compute; reflexivity|].
  split; [reflexivity|]. split; [vm_compute; reflexivity|].
  split; vm_compute; reflexivity.
Qed.

(** C7, amended.  A patch without a defined field is refused with the
    error 400 and nothing changes.  Otherwise, on a stored settings document
    [prev] whose merge with the patch has the five fields, the merge is what
    is stored, what [load_settings] then returns, and what the five cached
    attributes hold, field by field. *)
Theorem update_settings_round_trip patch self :
  let update_dict := SettingsModel.model_dump_exclude_none patch in
  (update_dict = ∅ → update_settings patch self = (Raise (HTTPException 400), self))
  ∧ (update_dict ≠ ∅ →
     ∀ prev rest,
       db_proxy_manager_settings self = prev :: rest →
       complete_settings (update_dict ∪ prev) →
       ∃ self',
         update_settings patch self = (Ret update_dict, self')
         ∧ db_proxy_manager_settings self' = (update_dict ∪ prev) :: rest
         ∧ load_settings self' = (Ret (update_dict ∪ prev), self')
         ∧ Some (max_proxies_per_instance self')
           = merged_field (SettingsModel.max_proxies_per_instance patch) prev
               "max_proxies_per_instance"
         ∧ Some (max_instances_per_proxy self')
           = merged_field (SettingsModel.max_instances_per_proxy patch) prev
               "max_instances_per_proxy"
         ∧ Some (inactive_proxy_timeout self')
           = merged_field (SettingsModel.inactive_proxy_timeout patch) prev
               "inactive_proxy_timeout"
         ∧ Some (background_check_proxies_interval self')
           = merged_field (SettingsModel.background_check_proxies_interval patch) prev
               "background_check_proxies_interval"
         ∧ Some (threshold_time_minutes self')
           = merged_field (SettingsModel.threshold_time_minutes patch) prev
               "threshold_time_minutes").
Proof.
  intros update_dict. split; [apply update_settings_empty|].
  intros Hne prev rest Hdb Hcomplete.
  destruct (merged_fields patch prev) as (F5 & F4 & F1 & F3 & F2).
  fold update_dict in F1, F2, F3, F4, F5.
  unfold complete_settings, setting_names in Hcomplete.
  apply Forall_cons in Hcomplete as [[v1 H1] Hcomplete].
  apply Forall_cons in Hcomplete as [[v2 H2] Hcomplete].
  apply Forall_cons in Hcomplete as [[v3 H3] Hcomplete].
  apply Forall_cons in Hcomplete as [[v4 H4] Hcomplete].
  apply Forall_cons in Hcomplete as [[v5 H5] _].
  pose (self' := Build_ProxyManagement (settings self) v1 v2 v3 v4 v5 (db_proxies self)
                   ((update_dict ∪ prev) :: rest)).
  exists self'.
  split; [|split; [done|split]];
    [|exact (load_settings_existing self' (update_dict ∪ prev) rest v1 v2 v3 v4 v5
               eq_refl H1 H2 H3 H4 H5)|].
  - unfold update_settings, reraise_as_500. cbv zeta. fold update_dict.
    rewrite decide_False by done.
    unfold bind at 1. unfold settings_update_one_upsert. rewrite Hdb. simpl.
    unfold bind.
    by rewrite (load_settings_existing _ (update_dict ∪ prev) rest v1 v2 v3 v4 v5).
  - simpl. by rewrite <- F1, <- F2, <- F3, <- F4, <- F5, H1, H2, H3, H4, H5.
Qed.

Lemma sample_patch_defined : SettingsModel.model_dump_exclude_none sample_patch ≠ ∅.
Proof. apply (bool_decide_unpack _). vm_compute. exact I. Defined.

Lemma update_settings_round_trip_witness :
  ∃ self',
    update_settings sample_patch (sample_manager 2 1 [])
    = (Ret (SettingsModel.model_dump_exclude_none sample_patch), self')
    ∧ Some (max_instances_per_proxy self') = Some 5
    ∧ Some (max_proxies_per_instance self') = Some 1.
Proof.
  destruct (update_settings_round_trip sample_patch (sample_manager 2 1 [])) as [_ H].
  assert (complete_settings
            (SettingsModel.model_dump_exclude_none sample_patch ∪ default_settings))
    as Hcomplete.
  { unfold complete_settings. apply (bool_decide_unpack _). vm_compute. exact I. }
  destruct (H sample_patch_defined default_settings [] eq_refl Hcomplete)
    as (self' & Hrun & _ & _ & F5 & F4 & _).
  exists self'. split; [exact Hrun|]. split; [exact F4|exact F5].
Defined.

(** C10. With no settings document in the store, a patch with a defined
    field is upserted as a new document, which stays, and the call raises
    the not-found error (404). *)
Theorem update_settings_upserts_then_not_found patch self :
  db_proxy_manager_settings self = [] →
  SettingsModel.model_dump_exclude_none patch ≠ ∅ →
  update_settings patch self =
    (Raise (HTTPException 404),
     with_settings_collection [SettingsModel.model_dump_exclude_none patch] self)
  ∧ db_proxy_manager_settings (update_settings patch self).2
    ≠ db_proxy_manager_settings self.
Proof.
  intros Hdb Hne.
  assert (update_settings patch self =
            (Raise (HTTPException 404),
             with_settings_collection [SettingsModel.model_dump_exclude_none patch] self))
    as Hrun.
  { unfold update_settings, reraise_as_500. cbv zeta. rewrite decide_False by done.
    unfold bind, settings_update_one_upsert. by rewrite Hdb. }
  split; [done|]. rewrite Hrun, Hdb. done.
Qed.

Lemma update_settings_upserts_then_not_found_witness :
  let self := with_settings_collection [] (sample_manager 2 1 []) in
  update_settings sample_patch self =
    (Raise (HTTPException 404),
     with_settings_collection [SettingsModel.model_dump_exclude_none sample_patch] self)
  ∧ db_proxy_manager_settings (update_settings sample_patch self).2
    ≠ db_proxy_manager_settings self.
Proof.
  intros self.
  exact (update_settings_upserts_then_not_found sample_patch self eq_refl
           sample_patch_defined).
Defined.

(** ** Releasing a lease *)

Lemma NoDup_by_id l1 (d : proxy) l2 :
  NoDup (_id <$> (l1 ++ d :: l2)) →
  Forall (λ x, by_id (_id d) x = false) l1 ∧ Forall (λ x, by_id (_id d) x = false) l2.
Proof.
  rewrite fmap_app, fmap_cons. intros Hnd.
  apply NoDup_app in Hnd as (_ & Hdisj & Hnd). apply NoDup_cons in Hnd as [Hd _].
  split; apply Forall_forall; intros x Hx; apply by_id_false; intros Heq.
  - apply (Hdisj (_id x)); [by apply list_elem_of_fmap_2|]. rewrite Heq. left.
  - apply Hd. rewrite <- Heq. by apply list_elem_of_fmap_2.
Qed.

(** The second write of [clear_instance_id]. *)
Lemma clear_fallback_eq proxy_id self l1 d l2 :
  db_proxies self = l1 ++ d :: l2 →
  Forall (λ x, by_id proxy_id x = false) l1 →
  _id d = proxy_id →
  (let* result := update_one (by_id proxy_id) op_set_instance_id_null in
   ret (bool_decide (modified_count result = 1%nat))) self =
    if decide (instance_id d = Null) then (Ret false, self)
    else (Ret true, with_proxies (l1 ++ set_instance_id Null d :: l2) self).
Proof.
  intros Hdb Hl1 Hid. unfold bind.
  rewrite (update_one_hit _ _ _ l1 d l2 Hdb Hl1) by (by apply by_id_true).
  unfold op_set_instance_id_null.
  destruct (decide (instance_id d = Null)) as [Hnull|Hset].
  - assert (set_instance_id Null d = d) as -> by (by apply set_instance_id_same).
    rewrite (decide_True (P := d = d)) by done.
    unfold ret. simpl. by rewrite <- Hdb, with_proxies_same.
  - rewrite (decide_False (P := set_instance_id Null d = d))
      by (by rewrite set_instance_id_same).
    done.
Qed.

Lemma clear_instance_id_eq proxy_id inst self l1 d l2 :
  plain_field_name inst = true →
  NoDup (_id <$> db_proxies self) →
  db_proxies self = l1 ++ d :: l2 →
  _id d = proxy_id →
  clear_instance_id proxy_id inst self =
    if holds_lease inst d then
      (Ret true,
       with_proxies (l1 ++ set_instance_ids (IdsMap (dict_del inst (leases d))) d :: l2) self)
    else if decide (instance_id d = Null) then (Ret false, self)
    else (Ret true, with_proxies (l1 ++ set_instance_id Null d :: l2) self).
Proof.
  intros Hplain Hnd Hdb Hid. rewrite Hdb in Hnd.
  destruct (NoDup_by_id _ _ _ Hnd) as [Hl1 Hl2]. rewrite Hid in Hl1, Hl2.
  pose proof (clear_fallback_eq proxy_id self l1 d l2 Hdb Hl1 Hid) as Hfallback.
  unfold clear_instance_id. unfold bind at 1.
  unfold holds_lease, leases. destruct (instance_ids d) as [|m|l] eqn:Hm.
  - rewrite update_one_miss; [by rewrite decide_False by done|].
    rewrite Hdb. apply Forall_app. split; [|constructor].
    + eapply Forall_impl; [exact Hl1|]. simpl. by intros x ->.
    + unfold instance_ids_is_object. rewrite Hm. apply andb_false_r.
    + eapply Forall_impl; [exact Hl2|]. simpl. by intros x ->.
  - rewrite (update_one_hit _ _ _ l1 d l2 Hdb).
    + unfold op_unset. simpl. rewrite Hplain, Hm. simpl.
      destruct (dict_get inst m) as [t|] eqn:Hget.
      * rewrite bool_decide_eq_true_2 by done.
        rewrite (decide_False (P := set_instance_ids _ d = d)); [done|].
        rewrite set_instance_ids_same, Hm. intros [= Heq].
        pose proof (dict_del_present m inst (mk_is_Some _ _ Hget)) as Hlt.
        rewrite <- Heq in Hlt. lia.
      * rewrite bool_decide_eq_false_2 by (by intros [? ?]).
        rewrite (dict_del_absent m inst Hget).
        assert (set_instance_ids (IdsMap m) d = d) as -> by (by apply set_instance_ids_same).
        rewrite (decide_True (P := d = d)) by done. simpl.
        by rewrite <- Hdb, with_proxies_same.
    + eapply Forall_impl; [exact Hl1|]. simpl. by intros x ->.
    + unfold instance_ids_is_object. rewrite Hm.
      rewrite andb_true_r. by apply by_id_true.
  - rewrite update_one_miss; [by rewrite decide_False by done|].
    rewrite Hdb. apply Forall_app. split; [|constructor].
    + eapply Forall_impl; [exact Hl1|]. simpl. by intros x ->.
    + unfold instance_ids_is_object. rewrite Hm. apply andb_false_r.
    + eapply Forall_impl; [exact Hl2|]. simpl. by intros x ->.
Qed.

Lemma clear_lease_on_unknown_proxy proxy_id inst self :
  get_proxy proxy_id self = None →
  clear_instance_from_specific_proxy proxy_id inst self = (Ret ReplyError, self).
Proof.
  intros Hnone. apply head_filter_none in Hnone.
  unfold clear_instance_from_specific_proxy, clear_instance_id, bind.
  rewrite update_one_miss.
  - rewrite decide_False by done. by rewrite update_one_miss.
  - eapply Forall_impl; [exact Hnone|]. simpl. by intros x ->.
Qed.

(** C8, as stated, fails: the proxy holds no lease for ["i1"], yet the
    call reports success and the document is changed.  The fallback write
    sets the scalar [instance_id] to [None], and that modifies a document
    that carries an [instance_id], as well as one that has no such field,
    which is every document as [add_proxy] stores it. *)
Lemma clear_lease_on_reports_success_without_lease :
  let legacy :=
    set_instance_id (Value "i9") (sample_proxy 1 8080 "HTTP" "UP" (IdsMap [])) in
  let fresh := sample_proxy 2 8081 "HTTP" "UP" (IdsMap []) in
  let self := sample_manager 2 1 [legacy; fresh] in
  holds_lease "i1" legacy = false ∧ holds_lease "i1" fresh = false
  ∧ clear_instance_from_specific_proxy 1 "i1" self
    = (Ret ReplySuccess, with_proxies [set_instance_id Null legacy; fresh] self)
  ∧ clear_instance_from_specific_proxy 2 "i1" self
    = (Ret ReplySuccess, with_proxies [legacy; set_instance_id Null fresh] self)
  ∧ set_instance_id Null legacy ≠ legacy ∧ set_instance_id Null fresh ≠ fresh.
Proof. run_scenario. Qed.

(** C8, amended.  On the proxy [d] stored under [proxy_id], for an instance
    id that is a field name: when [d] holds a lease for the instance, that
    entry alone is removed and the reply is success; when it does not, the
    scalar [instance_id] of [d] is set to [None], and the reply is success
    if that changed the document, failure if it did not, in which case the
    state is unchanged. *)
Theorem clear_lease_on_spec proxy_id inst self l1 d l2 :
  plain_field_name inst = true →
  NoDup (_id <$> db_proxies self) →
  db_proxies self = l1 ++ d :: l2 →
  _id d = proxy_id →
  clear_instance_from_specific_proxy proxy_id inst self =
    if holds_lease inst d then
      (Ret ReplySuccess,
       with_proxies (l1 ++ set_instance_ids (IdsMap (dict_del inst (leases d))) d :: l2) self)
    else if decide (instance_id d = Null) then (Ret ReplyError, self)
    else (Ret ReplySuccess, with_proxies (l1 ++ set_instance_id Null d :: l2) self).
Proof.
  intros Hplain Hnd Hdb Hid. unfold clear_instance_from_specific_proxy, bind.
  rewrite (clear_instance_id_eq proxy_id inst self l1 d l2 Hplain Hnd Hdb Hid).
  destruct (holds_lease inst d); [done|].
  by destruct (decide (instance_id d = Null)).
Qed.

Lemma clear_lease_on_spec_witness :
  let held :=
    sample_proxy 1 8080 "HTTP" "UP" (IdsMap [("i1", sample_now); ("i2", sample_now)]) in
  let self := sample_manager 2 1 [held] in
  clear_instance_from_specific_proxy 1 "i1" self
  = (Ret ReplySuccess,
     with_proxies [set_instance_ids (IdsMap [("i2", sample_now)]) held] self).
Proof.
  intros held self.
  apply (clear_lease_on_spec 1 "i1" self [] held []).
  - reflexivity.
  - apply (bool_decide_unpack _). vm_compute. exact I.
  - reflexivity.
  - reflexivity.
Defined.

(** ** Refreshing a lease *)

(** C9, as stated, fails for the empty instance id, which Python takes
    for no instance id: the call touches [last_used] and sets no entry. *)
Lemma refresh_with_empty_instance_id :
  let p := sample_proxy 1 8080 "HTTP" "UP" (IdsMap []) in
  let self := sample_manager 2 1 [p] in
  API.refresh_proxy_usage 1 (Some "") sample_now self
  = (Ret ReplySuccess, with_proxies [set_last_used (Value sample_now) p] self)
  ∧ dict_get "" (leases (set_last_used (Value sample_now) p)) = None.
Proof. run_scenario. Qed.

(** C9, amended.  For a stored proxy whose [instance_ids] is a mapping, or
    absent, and an instance id that is a field name (so not empty), the
    refresh sets the entry of that instance to the server time, creating it
    when the instance held no lease; no capacity is consulted, so a proxy
    at [max_instances_per_proxy] leases ends above it. *)
Theorem refresh_creates_lease proxy_id inst srv self d :
  plain_field_name inst = true →
  get_proxy proxy_id self = Some d →
  (∀ l, instance_ids d ≠ IdsArray l) →
  let r := API.refresh_proxy_usage proxy_id (Some inst) srv self in
  let new := dict_set inst srv (leases d) in
  get_proxy proxy_id r.2 = Some (set_instance_ids (IdsMap new) d)
  ∧ dict_get inst new = Some srv
  ∧ (dict_get inst (leases d) = None →
     r.1 = Ret ReplySuccess
     ∧ length new = S (length (leases d))
     ∧ (max_instances_per_proxy self ≤ Z.of_nat (length (leases d)) →
        max_instances_per_proxy r.2 < Z.of_nat (length new))).
Proof.
  intros Hplain Hget Hshape r new.
  apply head_filter_split in Hget as (l1 & l2 & Hdb & Hl1 & Hid).
  assert (op_current_date_lease inst srv d = Ret (set_instance_ids (IdsMap new) d)) as Hop.
  { unfold op_current_date_lease, new, leases. rewrite Hplain.
    destruct (instance_ids d) as [|m|l] eqn:Hm; [done..|by destruct (Hshape l)]. }
  assert (r = (Ret (if decide (set_instance_ids (IdsMap new) d = d)
                    then ReplyError else ReplySuccess),
               with_proxies (l1 ++ set_instance_ids (IdsMap new) d :: l2) self)) as Hr.
  { unfold r, API.refresh_proxy_usage, update_last_used, bind.
    destruct inst as [|c inst']; [done|].
    rewrite (update_one_hit _ _ _ l1 d l2 Hdb Hl1 Hid), Hop.
    by destruct (decide _). }
  rewrite Hr. simpl. split; [|split].
  - unfold get_proxy. simpl. apply lookup_after_write; [done|]. by apply by_id_true.
  - apply dict_get_set.
  - intros Hfresh.
    pose proof (dict_set_length_fresh (leases d) inst srv Hfresh) as Hlen.
    fold new in Hlen. split; [|split; [done|lia]].
    rewrite decide_False; [done|]. rewrite set_instance_ids_same. intros Heq.
    unfold leases in Hlen. rewrite Heq in Hlen. lia.
Qed.

Lemma refresh_creates_lease_witness :
  let full :=
    sample_proxy 1 8080 "HTTP" "UP"
      (IdsMap [("i1", sample_now - 1); ("i2", sample_now - 1)]) in
  let self := sample_manager 2 1 [full] in
  let r := API.refresh_proxy_usage 1 (Some "i3") sample_now self in
  r.1 = Ret ReplySuccess
  ∧ length (dict_set "i3" sample_now (leases full)) = 3%nat
  ∧ max_instances_per_proxy r.2 < Z.of_nat (length (dict_set "i3" sample_now (leases full))).
Proof.
  intros full self r.
  destruct (refresh_creates_lease 1 "i3" sample_now self full) as (_ & _ & H).
  - reflexivity.
  - reflexivity.
  - discriminate.
  - destruct (H eq_refl) as (Hreply & Hlen & Hover).
    split; [exact Hreply|]. split; [exact Hlen|]. apply Hover. vm_compute. discriminate.
Defined.

(** * Further properties of the manager *)

(** ** Settings *)

Lemma load_settings_keeps_self_settings self :
  db_proxy_manager_settings self ≠ [] →
  settings (load_settings self).2 = settings self.
Proof.
  intros Hne. unfold load_settings, bind, settings_find_one, subscript.
  destruct (db_proxy_manager_settings self) as [|doc rest]; [done|]. simpl.
  destruct self. simpl.
  destruct (doc !! "inactive_proxy_timeout"); [simpl|done].
  destruct (doc !! "threshold_time_minutes"); [simpl|done].
  destruct (doc !! "background_check_proxies_interval"); [simpl|done].
  destruct (doc !! "max_instances_per_proxy"); [simpl|done].
  by destruct (doc !! "max_proxies_per_instance").
Qed.

(** X1. [update_settings] never changes [self.settings]: whatever the
    patch and the state, and whether it succeeds or raises, [get_settings]
    returns afterwards what it returned before. *)
Theorem get_settings_ignores_update patch self :
  (get_settings (update_settings patch self).2).1 = (get_settings self).1.
Proof.
  unfold get_settings. simpl. f_equal.
  unfold update_settings, reraise_as_500. cbv zeta.
  destruct (decide (SettingsModel.model_dump_exclude_none patch = ∅)); [done|].
  unfold bind at 1. unfold settings_update_one_upsert.
  destruct (db_proxy_manager_settings self) as [|prev rest] eqn:Hdb; simpl.
  - by destruct self.
  - unfold bind.
    pose proof (load_settings_keeps_self_settings
                  (with_settings_collection
                     ((SettingsModel.model_dump_exclude_none patch ∪ prev) :: rest) self))
      as Hload.
    destruct (load_settings _) as [[doc|e] self']; simpl in *.
    + rewrite Hload by done. by destruct self.
    + destruct e; simpl; rewrite Hload by done; by destruct self.
Qed.

Lemma load_settings_on_empty self :
  db_proxy_manager_settings self = [] →
  load_settings self =
    (Ret default_settings,
     {| settings := Some default_settings;
        inactive_proxy_timeout := 10;
        threshold_time_minutes := 10;
        background_check_proxies_interval := 60;
        max_instances_per_proxy := 2;
        max_proxies_per_instance := 1;
        db_proxies := db_proxies self;
        db_proxy_manager_settings := [default_settings] |}).
Proof.
  intros Hdb. unfold load_settings, bind, settings_find_one. rewrite Hdb. simpl.
  unfold settings_insert_one. rewrite Hdb. destruct self. reflexivity.
Qed.

(** X2. On an empty settings collection, [load_settings] stores the
    default document, caches it in [self.settings], sets the five
    attributes to the defaults 10, 10, 60, 2 and 1, and leaves the proxies
    alone. *)
Theorem load_settings_installs_defaults self :
  db_proxy_manager_settings self = [] →
  load_settings self =
    (Ret default_settings,
     {| settings := Some default_settings;
        inactive_proxy_timeout := 10;
        threshold_time_minutes := 10;
        background_check_proxies_interval := 60;
        max_instances_per_proxy := 2;
        max_proxies_per_instance := 1;
        db_proxies := db_proxies self;
        db_proxy_manager_settings := [default_settings] |}).
Proof. apply load_settings_on_empty. Qed.

Lemma load_settings_installs_defaults_witness :
  let self := with_settings_collection [] (sample_manager 7 7 []) in
  max_instances_per_proxy (load_settings self).2 = 2
  ∧ db_proxy_manager_settings (load_settings self).2 = [default_settings].
Proof.
  intros self.
  rewrite (load_settings_installs_defaults self eq_refl). split; reflexivity.
Defined.

(** X3. [load_settings] is idempotent: when it succeeds, loading again
    returns the same document and leaves the state as it is. *)
Theorem load_settings_idempotent self doc self' :
  load_settings self = (Ret doc, self') →
  load_settings self' = (Ret doc, self').
Proof.
  destruct (db_proxy_manager_settings self) as [|d rest] eqn:Hdb.
  - rewrite (load_settings_on_empty self Hdb). intros [= <- <-].
    match goal with
    | |- load_settings ?s = _ =>
        exact (load_settings_existing s default_settings [] 10 10 60 2 1
                 eq_refl eq_refl eq_refl eq_refl eq_refl eq_refl)
    end.
  - unfold load_settings at 1. unfold bind, settings_find_one, subscript, raise.
    rewrite Hdb. destruct self; simpl in *.
    destruct (d !! "inactive_proxy_timeout") as [v1|] eqn:H1; [simpl|done].
    destruct (d !! "threshold_time_minutes") as [v2|] eqn:H2; [simpl|done].
    destruct (d !! "background_check_proxies_interval") as [v3|] eqn:H3; [simpl|done].
    destruct (d !! "max_instances_per_proxy") as [v4|] eqn:H4; [simpl|done].
    destruct (d !! "max_proxies_per_instance") as [v5|] eqn:H5; [simpl|done].
    intros [= <- <-].
    rewrite (load_settings_existing _ d rest v1 v2 v3 v4 v5) by (simpl; congruence).
    simpl. by rewrite Hdb.
Qed.

Lemma load_settings_idempotent_witness :
  let self := sample_manager 7 7 [] in
  load_settings (load_settings self).2 = (Ret default_settings, (load_settings self).2).
Proof.
  intros self.
  apply (load_settings_idempotent self default_settings (load_settings self).2).
  reflexivity.
Defined.

Lemma update_settings_upserts_then_not_found_eq patch self :
  db_proxy_manager_settings self = [] →
  SettingsModel.model_dump_exclude_none patch ≠ ∅ →
  update_settings patch self =
    (Raise (HTTPException 404),
     with_settings_collection [SettingsModel.model_dump_exclude_none patch] self).
Proof.
  intros Hdb Hne. unfold update_settings, reraise_as_500. cbv zeta.
  rewrite decide_False by done.
  unfold bind, settings_update_one_upsert. by rewrite Hdb.
Qed.

(** X4. After [update_settings] has upserted a patch that lacks one of the
    five settings into an empty collection (and raised 404), the next
    [load_settings], that of a restart, raises [KeyError]. *)
Theorem load_settings_fails_after_partial_upsert patch self :
  db_proxy_manager_settings self = [] →
  SettingsModel.model_dump_exclude_none patch ≠ ∅ →
  ¬ complete_settings (SettingsModel.model_dump_exclude_none patch) →
  ∃ k self', load_settings (update_settings patch self).2 = (Raise (KeyError k), self').
Proof.
  intros Hdb Hne Hpartial.
  rewrite (update_settings_upserts_then_not_found_eq patch self Hdb Hne).
  unfold load_settings, bind, settings_find_one, subscript, raise.
  destruct self; simpl in *.
  set (doc := SettingsModel.model_dump_exclude_none patch) in *.
  destruct (doc !! "inactive_proxy_timeout") as [v1|] eqn:H1; [simpl|by eexists _, _].
  destruct (doc !! "threshold_time_minutes") as [v2|] eqn:H2; [simpl|by eexists _, _].
  destruct (doc !! "background_check_proxies_interval") as [v3|] eqn:H3;
    [simpl|by eexists _, _].
  destruct (doc !! "max_instances_per_proxy") as [v4|] eqn:H4; [simpl|by eexists _, _].
  destruct (doc !! "max_proxies_per_instance") as [v5|] eqn:H5; [simpl|by eexists _, _].
  destruct Hpartial. unfold complete_settings, setting_names.
  repeat constructor; by eexists.
Qed.

Lemma load_settings_fails_after_partial_upsert_witness :
  let self := with_settings_collection [] (sample_manager 2 1 []) in
  ∃ k self', load_settings (update_settings sample_patch self).2 = (Raise (KeyError k), self').
Proof.
  intros self.
  apply (load_settings_fails_after_partial_upsert sample_patch self eq_refl
           sample_patch_defined).
  unfold complete_settings. apply (bool_decide_unpack _). vm_compute. exact I.
Defined.

(** ** Resetting *)

Lemma map_if_true {A} (f : A → A) (l : list A) :
  List.map (λ d, if true then f d else d) l = f <$> l.
Proof. by induction l; simpl; f_equal. Qed.

Lemma op_reset_idempotent d : op_reset (op_reset d) = op_reset d.
Proof. by destruct d. Qed.

Lemma op_reset_same d :
  op_reset d = d ↔ instance_ids d = IdsMap [] ∧ last_used d = Null.
Proof.
  destruct d. unfold op_reset, set_last_used, set_instance_ids. simpl.
  split; [by intros [= -> ->]|by intros [-> ->]].
Qed.

Lemma reset_all_proxies_eq self :
  reset_all_proxies self =
    (Ret (match db_proxies self with
          | [] => ResetNoProxies
          | _ :: _ =>
              match List.filter (λ d, negb (bool_decide (op_reset d = d))) (db_proxies self) with
              | [] => ResetNotNeeded
              | changed => ResetDone (length changed)
              end
          end),
     with_proxies (op_reset <$> db_proxies self) self).
Proof.
  unfold reset_all_proxies, bind, update_many. cbv zeta. rewrite map_if_true.
  rewrite filter_all. simpl.
  destruct (db_proxies self) as [|d c]; [done|].
  rewrite decide_False by done.
  destruct (List.filter _ (d :: c)); [done|]. by rewrite decide_False.
Qed.

(** X5. [reset_all_proxies] replaces every document by itself with an
    empty lease mapping and a null [last_used], all other fields and the
    order kept, and touches nothing else of the state.  With [n] the
    number of documents that were not already so, the reply is the success
    reply with [n] when [n > 0], the "no proxies needed resetting" info
    reply when the collection is not empty and [n = 0], and the "no proxies
    were available" info reply on an empty collection. *)
Theorem reset_all_proxies_clears self :
  let r := reset_all_proxies self in
  let n :=
    length (List.filter
              (λ d, negb (bool_decide (instance_ids d = IdsMap [] ∧ last_used d = Null)))
              (db_proxies self)) in
  db_proxies r.2
  = (λ d, set_last_used Null (set_instance_ids (IdsMap []) d)) <$> db_proxies self
  ∧ (∀ d, d ∈ db_proxies r.2 → instance_ids d = IdsMap [] ∧ last_used d = Null)
  ∧ r.2 = with_proxies (db_proxies r.2) self
  ∧ r.1 = Ret (match db_proxies self, n with
               | [], _ => ResetNoProxies
               | _ :: _, O => ResetNotNeeded
               | _ :: _, S _ => ResetDone n
               end).
Proof.
  intros r n. unfold r. rewrite reset_all_proxies_eq. simpl.
  split; [done|]. split; [|split; [done|]].
  - intros d Hd. apply list_elem_of_fmap in Hd as (d0 & -> & _). by destruct d0.
  - assert (List.filter (λ d, negb (bool_decide (op_reset d = d))) (db_proxies self)
            = List.filter
                (λ d, negb (bool_decide (instance_ids d = IdsMap [] ∧ last_used d = Null)))
                (db_proxies self)) as Hfilter.
    { apply List.filter_ext. intros d. f_equal. apply bool_decide_ext, op_reset_same. }
    unfold n. rewrite <- Hfilter.
    destruct (db_proxies self) as [|d c]; [done|].
    generalize (List.filter (λ d, negb (bool_decide (op_reset d = d))) (d :: c)).
    by intros [|x l].
Qed.

(** X6. Resetting is idempotent: a second [reset_all_proxies] changes
    nothing and never reports success. *)
Theorem reset_all_proxies_idempotent self :
  let self' := (reset_all_proxies self).2 in
  (reset_all_proxies self').2 = self'
  ∧ ∀ n, (reset_all_proxies self').1 ≠ Ret (ResetDone n).
Proof.
  intros self'. unfold self'. rewrite !reset_all_proxies_eq. simpl.
  assert (op_reset <$> (op_reset <$> db_proxies self) = op_reset <$> db_proxies self) as Hmap.
  { rewrite <- list_fmap_compose. apply list_fmap_ext. intros ? d _. simpl.
    apply op_reset_idempotent. }
  split; [by rewrite Hmap|].
  intros n. destruct (op_reset <$> db_proxies self) as [|d c] eqn:Hc; [done|].
  assert (List.filter (λ d, negb (bool_decide (op_reset d = d))) (d :: c) = []) as ->; [|done].
  rewrite <- Hc. clear. induction (db_proxies self) as [|x l IH]; [done|].
  rewrite fmap_cons. simpl. rewrite bool_decide_eq_true_2 by apply op_reset_idempotent.
  done.
Qed.

(** ** Deleting *)

Lemma delete_first_miss q c :
  Forall (λ x, q x = false) c → delete_first q c = (c, 0%nat).
Proof. induction 1 as [|x c Hx _ IH]; simpl; [done|]. by rewrite Hx, IH. Qed.

Lemma delete_first_hit q l1 d l2 :
  Forall (λ x, q x = false) l1 → q d = true →
  delete_first q (l1 ++ d :: l2) = (l1 ++ l2, 1%nat).
Proof.
  intros Hl1 Hd. induction Hl1 as [|x l1 Hx _ IH]; simpl.
  - by rewrite Hd.
  - by rewrite Hx, IH.
Qed.

Lemma filter_by_id_none pid (c : list proxy) :
  Forall (λ x, by_id pid x = false) c → List.filter (by_id pid) c = [].
Proof. induction 1 as [|x c Hx _ IH]; simpl; [done|]. by rewrite Hx. Qed.

(** X7. [delete_proxy] reports success exactly when the proxy was stored;
    afterwards the proxy is not found, and every other proxy is found as
    before. *)
Theorem delete_proxy_removes proxy_id self :
  NoDup (_id <$> db_proxies self) →
  let r := delete_proxy proxy_id self in
  r.1 = Ret (match get_proxy proxy_id self with
             | Some _ => ReplySuccess
             | None => ReplyError
             end)
  ∧ get_proxy proxy_id r.2 = None
  ∧ ∀ other, other ≠ proxy_id → get_proxy other r.2 = get_proxy other self.
Proof.
  intros Hnd r. unfold r, delete_proxy, bind, delete_one, get_proxy.
  destruct (head (List.filter (by_id proxy_id) (db_proxies self))) as [d|] eqn:Hd.
  - apply head_filter_split in Hd as (l1 & l2 & Hdb & Hl1 & Hid).
    rewrite Hdb in Hnd |- *. rewrite (delete_first_hit _ l1 d l2 Hl1 Hid). simpl.
    apply by_id_true in Hid. subst proxy_id.
    destruct (NoDup_by_id _ _ _ Hnd) as [_ Hl2].
    split; [done|]. split.
    + rewrite List.filter_app, !filter_by_id_none by done. done.
    + intros other Hne. rewrite !List.filter_app. simpl.
      assert (by_id other d = false) as -> by (by apply by_id_false). done.
  - apply head_filter_none in Hd. rewrite (delete_first_miss _ _ Hd). simpl.
    split; [done|]. split; [|done]. by rewrite filter_by_id_none.
Qed.

Lemma delete_proxy_removes_witness :
  let a := sample_proxy 1 8080 "HTTP" "UP" (IdsMap []) in
  let b := sample_proxy 2 8081 "HTTP" "UP" (IdsMap []) in
  let r := delete_proxy 1 (sample_manager 2 1 [a; b]) in
  r.1 = Ret ReplySuccess ∧ get_proxy 1 r.2 = None ∧ get_proxy 2 r.2 = Some b.
Proof.
  intros a b r.
  destruct (delete_proxy_removes 1 (sample_manager 2 1 [a; b])) as (H1 & H2 & H3).
  - apply (bool_decide_unpack _). vm_compute. exact I.
  - split; [exact H1|]. split; [exact H2|]. apply (H3 2%N). discriminate.
Defined.

(** X8. Deleting a proxy right after adding it restores the state. *)
Theorem add_then_delete proxy_data self self' :
  add_proxy proxy_data self = (Ret (_id proxy_data), self') →
  delete_proxy (_id proxy_data) self' = (Ret ReplySuccess, self).
Proof.
  rewrite add_proxy_eq. destruct (head _); [done|].
  destruct (existsb _ _) eqn:Hex; [done|]. intros [= <-].
  unfold delete_proxy, bind, delete_one. simpl.
  rewrite (delete_first_hit _ (db_proxies self) proxy_data []).
  - rewrite app_nil_r. by destruct self.
  - apply Forall_forall. intros x Hx. apply by_id_false. intros Heq.
    apply not_true_iff_false in Hex. apply Hex, existsb_exists.
    exists x. split; [by apply list_elem_of_In|]. by apply bool_decide_eq_true.
  - by apply by_id_true.
Qed.

Lemma add_then_delete_witness :
  let pd := sample_proxy 3 8082 "SOCKS5" "UNKNOWN" (IdsMap []) in
  let self := sample_manager 2 1 [sample_proxy 1 8080 "HTTP" "UP" (IdsMap [])] in
  delete_proxy 3 (add_proxy pd self).2 = (Ret ReplySuccess, self).
Proof.
  intros pd self. apply (add_then_delete pd self (add_proxy pd self).2). reflexivity.
Defined.

(** X9. A successful [add_proxy] stores the document as given: it is
    found under its [_id], and every proxy stored before is found as
    before. *)
Theorem add_proxy_then_get proxy_data self self' :
  add_proxy proxy_data self = (Ret (_id proxy_data), self') →
  get_proxy (_id proxy_data) self' = Some proxy_data
  ∧ ∀ other d, get_proxy other self = Some d → get_proxy other self' = Some d.
Proof.
  rewrite add_proxy_eq. destruct (head _); [done|].
  destruct (existsb _ _) eqn:Hex; [done|]. intros [= <-].
  unfold get_proxy. simpl. split.
  - apply (head_filter_app _ (db_proxies self) [] proxy_data); [|by apply by_id_true].
    apply Forall_forall. intros x Hx. apply by_id_false. intros Heq.
    apply not_true_iff_false in Hex. apply Hex, existsb_exists.
    exists x. split; [by apply list_elem_of_In|]. by apply bool_decide_eq_true.
  - intros other d Hd. rewrite List.filter_app.
    destruct (List.filter (by_id other) (db_proxies self)); [done|]. done.
Qed.

Lemma add_proxy_then_get_witness :
  let pd := sample_proxy 3 8082 "SOCKS5" "UNKNOWN" (IdsMap []) in
  let old := sample_proxy 1 8080 "HTTP" "UP" (IdsMap []) in
  let self' := (add_proxy pd (sample_manager 2 1 [old])).2 in
  get_proxy 3 self' = Some pd ∧ get_proxy 1 self' = Some old.
Proof.
  intros pd old self'.
  destruct (add_proxy_then_get pd (sample_manager 2 1 [old]) self' eq_refl) as [H1 H2].
  split; [exact H1|]. apply H2. reflexivity.
Defined.

(** ** Releasing an instance everywhere *)

Lemma release_id inst d : _id (release inst d) = _id d.
Proof. unfold release. by destruct (holds_lease inst d). Qed.

Lemma with_counts_holds inst d :
  bool_decide (is_Some (dict_get inst (ProxyModel.instance_ids (with_counts d))))
  = holds_lease inst d.
Proof.
  unfold with_counts, holds_lease, leases_of_document. simpl.
  destruct (instance_ids d); [|done|]; apply bool_decide_eq_false_2; by intros [? ?].
Qed.

Lemma lookup_fmap_id_preserving (f : proxy → proxy) pid (c : list proxy) :
  (∀ x, _id (f x) = _id x) →
  head (List.filter (by_id pid) (f <$> c)) = f <$> head (List.filter (by_id pid) c).
Proof.
  intros Hf. induction c as [|x c IH]; [done|]. rewrite fmap_cons. simpl.
  assert (by_id pid (f x) = by_id pid x) as -> by (unfold by_id; by rewrite Hf).
  by destruct (by_id pid x).
Qed.

Lemma clear_each_eq inst todo : ∀ seen self cleared,
  plain_field_name inst = true →
  db_proxies self = (release inst <$> seen) ++ todo →
  NoDup (_id <$> (seen ++ todo)) →
  clear_each inst (List.map with_counts todo) cleared self =
    (Ret (match cleared ++ (_id <$> List.filter (holds_lease inst) todo) with
          | [] => ReservationNotFound
          | ids => ReservationCleared ids
          end),
     with_proxies (release inst <$> (seen ++ todo)) self).
Proof.
  induction todo as [|d todo IH]; intros seen self cleared Hplain Hdb Hnd.
  - simpl. rewrite !app_nil_r in *. rewrite <- Hdb, with_proxies_same.
    by destruct cleared.
  - cbn [List.map clear_each]. rewrite with_counts_holds.
    change (ProxyModel.id (with_counts d)) with (_id d).
    assert (NoDup (_id <$> ((seen ++ [d]) ++ todo))) as Hnd' by (by rewrite <- app_assoc).
    destruct (holds_lease inst d) eqn:Hholds.
    + unfold bind.
      assert (NoDup (_id <$> db_proxies self)) as Hnd0.
      { rewrite Hdb, fmap_app, <- list_fmap_compose.
        rewrite (list_fmap_ext (_id ∘ release inst) _id seen)
          by (intros ? x _; apply release_id).
        by rewrite <- fmap_app. }
      rewrite (clear_instance_id_eq (_id d) inst self (release inst <$> seen) d todo
                 Hplain Hnd0 Hdb eq_refl).
      rewrite Hholds.
      rewrite (IH (seen ++ [d]) _ (cleared ++ [_id d]) Hplain); [| |done].
      * simpl. by rewrite Hholds, fmap_cons, <- !app_assoc.
      * simpl. rewrite fmap_app, <- app_assoc. simpl. unfold release at 3.
        by rewrite Hholds.
    + rewrite (IH (seen ++ [d]) self cleared Hplain); [| |done].
      * simpl. by rewrite Hholds, <- !app_assoc.
      * rewrite fmap_app, <- app_assoc. simpl. unfold release at 2.
        by rewrite Hholds.
Qed.

Lemma clear_instance_reservation_eq inst self :
  plain_field_name inst = true →
  NoDup (_id <$> db_proxies self) →
  clear_instance_reservation inst self =
    (Ret (match _id <$> List.filter (holds_lease inst) (db_proxies self) with
          | [] => ReservationNotFound
          | ids => ReservationCleared ids
          end),
     with_proxies (release inst <$> db_proxies self) self).
Proof.
  intros Hplain Hnd. unfold clear_instance_reservation, get_proxies, bind, find, ret.
  rewrite filter_all. by apply (clear_each_eq inst (db_proxies self) [] self []).
Qed.

(** X10. [clear_instance_reservation], for an instance id that is a field
    name: it reports the proxies that held a lease of the instance, in
    order, or that none did, in which case nothing changes; afterwards no
    proxy holds a lease of the instance, and the leases of the other
    instances are as before. *)
Theorem clear_instance_reservation_releases inst self :
  plain_field_name inst = true →
  NoDup (_id <$> db_proxies self) →
  let holders := List.filter (holds_lease inst) (db_proxies self) in
  let r := clear_instance_reservation inst self in
  r.1 = Ret (match holders with
             | [] => ReservationNotFound
             | _ :: _ => ReservationCleared (_id <$> holders)
             end)
  ∧ (holders = [] → r.2 = self)
  ∧ (∀ d, d ∈ db_proxies r.2 → holds_lease inst d = false)
  ∧ (∀ proxy_id d k,
       k ≠ inst → get_proxy proxy_id self = Some d →
       ∃ d', get_proxy proxy_id r.2 = Some d'
             ∧ dict_get k (leases d') = dict_get k (leases d)).
Proof.
  intros Hplain Hnd holders r. unfold r.
  rewrite (clear_instance_reservation_eq inst self Hplain Hnd). simpl.
  fold holders. split; [by destruct holders|]. split; [|split].
  - intros Hnone.
    assert (release inst <$> db_proxies self = db_proxies self) as ->;
      [|apply with_proxies_same].
    unfold holders in Hnone. clear -Hnone.
    induction (db_proxies self) as [|x c IH]; [done|]. simpl in Hnone.
    rewrite fmap_cons. unfold release at 1.
    destruct (holds_lease inst x); [done|]. by rewrite IH.
  - intros d Hd. apply list_elem_of_fmap in Hd as (d0 & -> & _).
    unfold release. destruct (holds_lease inst d0) eqn:Hholds; [|done].
    unfold holds_lease. simpl. apply bool_decide_eq_false_2.
    rewrite dict_get_del. by intros [? ?].
  - intros proxy_id d k Hk Hget. exists (release inst d). split.
    + unfold get_proxy in *. simpl.
      rewrite (lookup_fmap_id_preserving _ _ _ (release_id inst)). by rewrite Hget.
    + unfold release. destruct (holds_lease inst d); [|done].
      unfold leases at 1. simpl. by apply dict_get_del_ne.
Qed.

Lemma clear_instance_reservation_releases_witness :
  let a :=
    sample_proxy 1 8080 "HTTP" "UP" (IdsMap [("i1", sample_now); ("i2", sample_now)]) in
  let b := sample_proxy 2 8081 "HTTP" "UP" (IdsMap [("i2", sample_now)]) in
  let c := sample_proxy 3 8082 "HTTP" "UP" (IdsMap [("i1", sample_now)]) in
  let r := clear_instance_reservation "i1" (sample_manager 2 1 [a; b; c]) in
  r.1 = Ret (ReservationCleared [1%N; 3%N])
  ∧ ∀ d, d ∈ db_proxies r.2 → holds_lease "i1" d = false.
Proof.
  intros a b c r.
  destruct (clear_instance_reservation_releases "i1" (sample_manager 2 1 [a; b; c]))
    as (H1 & _ & H3 & _).
  - reflexivity.
  - apply (bool_decide_unpack _). vm_compute. exact I.
  - split; [exact H1|exact H3].
Defined.

(** ** Editing *)

Lemma edit_collect_rejects fields : ∀ update_dict fields_updated,
  (∃ f v, (f, v) ∈ fields ∧ rejected_entry f v) →
  edit_collect fields update_dict fields_updated = Raise (HTTPException 400).
Proof.
  induction fields as [|[f v] fields IH]; intros ud fu (f' & v' & Hin & Hrej).
  - by apply not_elem_of_nil in Hin.
  - simpl. destruct (bool_decide (f ∈ allowed_fields)) eqn:Hallowed; [|done].
    destruct v as [x|]; [|done].
    destruct (bool_decide (f = "tags") && negb (is_list x)) eqn:Htags; [done|].
    apply IH. exists f', v'. split; [|done].
    apply elem_of_cons in Hin as [[= -> ->]|Hin]; [|done].
    apply bool_decide_eq_true in Hallowed.
    destruct Hrej as [Hout|[Hnone|(-> & y & [= <-] & Hlist)]]; [done..|].
    by rewrite Hlist in Htags.
Qed.

Lemma edit_collect_fields fields : ∀ update_dict fields_updated ud fu,
  edit_collect fields update_dict fields_updated = Ret (ud, fu) →
  fu = fields_updated ++ fields.*1.
Proof.
  induction fields as [|[f v] fields IH]; intros ud0 fu0 ud fu; simpl.
  - intros [= <- <-]. by rewrite app_nil_r.
  - destruct (bool_decide (f ∈ allowed_fields)); [|done].
    destruct v as [x|]; [|done].
    destruct (bool_decide (f = "tags") && negb (is_list x)); [done|].
    intros H. apply IH in H as ->. by rewrite <- app_assoc.
Qed.

Lemma op_set_field_engine_state f v d d' :
  op_set_field f v d = Ret d' → engine_state d' = engine_state d.
Proof.
  unfold op_set_field. destruct v; repeat case_decide; intros [= <-]; by destruct d.
Qed.

Lemma op_set_fields_engine_state update_dict : ∀ d d',
  op_set_fields update_dict d = Ret d' → engine_state d' = engine_state d.
Proof.
  induction update_dict as [|[f v] ud IH]; intros d d'; simpl.
  - by intros [= <-].
  - destruct (op_set_field f v d) as [d1|] eqn:H1; [|done].
    intros H. rewrite (IH _ _ H). by eapply op_set_field_engine_state.
Qed.

Lemma engine_state_id d d' : engine_state d' = engine_state d → _id d' = _id d.
Proof. unfold engine_state. by intros [= -> _ _ _ _]. Qed.

(** X11. [edit_proxy] refuses, and changes nothing: with 404 for a proxy
    that is not stored; with 400 for a patch that has a field outside the
    whitelist (such as [instance_ids] or [status]), a [None], or tags that
    are not a list; an empty patch gets the reply "no valid fields". *)
Theorem edit_proxy_refuses proxy_id fields self :
  (get_proxy proxy_id self = None →
   edit_proxy proxy_id fields self = (Raise (HTTPException 404), self))
  ∧ (is_Some (get_proxy proxy_id self) →
     (∃ f v, (f, v) ∈ fields ∧ rejected_entry f v) →
     edit_proxy proxy_id fields self = (Raise (HTTPException 400), self))
  ∧ (is_Some (get_proxy proxy_id self) → fields = [] →
     edit_proxy proxy_id fields self = (Ret EditNoFields, self)).
Proof.
  unfold get_proxy, edit_proxy, bind, find_one, lift. split; [|split].
  - by intros ->.
  - intros [d ->] Hrej. by rewrite (edit_collect_rejects fields [] [] Hrej).
  - by intros [d ->] ->.
Qed.

Lemma edit_proxy_refuses_witness :
  let self := sample_manager 2 1 [sample_proxy 1 8080 "HTTP" "UP" (IdsMap [])] in
  edit_proxy 1 [("ip", Some (VStr "5.6.7.8")); ("instance_ids", Some (VStr "i1"))] self
  = (Raise (HTTPException 400), self)
  ∧ edit_proxy 9 [("ip", Some (VStr "5.6.7.8"))] self = (Raise (HTTPException 404), self).
Proof.
  intros self. split.
  - apply (edit_proxy_refuses 1 _ self); [by eexists|].
    exists "instance_ids", (Some (VStr "i1")). split.
    + right. left.
    + left. apply (bool_decide_unpack _). vm_compute. exact I.
  - by apply (edit_proxy_refuses 9 _ self).
Defined.

Lemma update_first_engine_state q u c c' r :
  (∀ d d', u d = Ret d' → engine_state d' = engine_state d) →
  update_first q u c = Ret (c', r) →
  engine_state <$> c' = engine_state <$> c.
Proof.
  intros Hu. revert c' r. induction c as [|d c IH]; intros c' r; simpl.
  - by intros [= <- _].
  - destruct (q d).
    + destruct (u d) as [d'|] eqn:Hd; [|done]. intros [= <- _].
      rewrite !fmap_cons. by rewrite (Hu d d' Hd).
    + destruct (update_first q u c) as [[c'' r']|]; [|done]. intros [= <- _].
      rewrite !fmap_cons. by rewrite (IH c'' r').
Qed.

(** X12. Whatever the patch and whatever the outcome, [edit_proxy] leaves
    the identity, the status, the leases ([instance_ids], [instance_id])
    and [last_used] of every document as they were. *)
Theorem edit_proxy_keeps_engine_state proxy_id fields self :
  engine_state <$> db_proxies (edit_proxy proxy_id fields self).2
  = engine_state <$> db_proxies self.
Proof.
  unfold edit_proxy, bind, find_one, lift.
  destruct (head _) as [d|] eqn:Hd; [|done]. simpl.
  destruct (edit_collect fields [] []) as [[ud fu]|]; [|done].
  destruct ud as [|e ud]; [done|].
  unfold find_one_and_update. rewrite Hd.
  destruct (op_set_fields (e :: ud) d) as [d'|] eqn:Hop; [|done].
  destruct (update_first _ _ _) as [[c r]|] eqn:Hup; [|done].
  assert (engine_state <$> c = engine_state <$> db_proxies self) as Hc.
  { eapply update_first_engine_state; [|exact Hup]. apply op_set_fields_engine_state. }
  by destruct (validate d').
Qed.

(** X13. When [edit_proxy] succeeds, the document it returns is the one
    then stored under the id, the fields it reports are the keys of the
    patch in order, and every other proxy is found as before. *)
Theorem edit_proxy_then_get proxy_id fields self fields_updated updated_proxy self' :
  edit_proxy proxy_id fields self = (Ret (Edited fields_updated updated_proxy), self') →
  get_proxy proxy_id self' = Some updated_proxy
  ∧ fields_updated = fields.*1
  ∧ ∀ other, other ≠ proxy_id → get_proxy other self' = get_proxy other self.
Proof.
  unfold edit_proxy, bind, find_one, lift.
  destruct (head _) as [d|] eqn:Hd; [|done]. simpl.
  destruct (edit_collect fields [] []) as [[ud fu]|] eqn:Hcollect; [|done].
  destruct ud as [|e ud]; [done|].
  unfold find_one_and_update. rewrite Hd.
  destruct (op_set_fields (e :: ud) d) as [d'|] eqn:Hop; [|done].
  apply head_filter_split in Hd as (l1 & l2 & Hdb & Hl1 & Hid).
  rewrite Hdb, (update_first_hit _ _ l1 d l2 Hl1 Hid), Hop.
  destruct (validate d'); [|done]. intros [= <- <- <-].
  pose proof (engine_state_id _ _ (op_set_fields_engine_state _ _ _ Hop)) as Hid'.
  apply by_id_true in Hid. unfold get_proxy. simpl. split; [|split].
  - apply lookup_after_write; [done|congruence].
  - by apply edit_collect_fields in Hcollect.
  - intros other Hne. rewrite Hdb, !List.filter_app. simpl.
    assert (by_id other d = false) as -> by (apply by_id_false; congruence).
    assert (by_id other d' = false) as -> by (apply by_id_false; congruence).
    done.
Qed.

Lemma edit_proxy_then_get_witness :
  let p := sample_proxy 1 8080 "HTTP" "UP" (IdsMap [("i1", sample_now)]) in
  let r := edit_proxy 1 [("port", Some (VInt 3128)); ("tags", Some (VList ["eu"]))]
             (sample_manager 2 1 [p]) in
  get_proxy 1 r.2 = Some (set_tags ["eu"] (set_port 3128 p)).
Proof.
  intros p r.
  apply (edit_proxy_then_get 1 [("port", Some (VInt 3128)); ("tags", Some (VList ["eu"]))]
           (sample_manager 2 1 [p]) ["port"; "tags"] (set_tags ["eu"] (set_port 3128 p)) r.2).
  reflexivity.
Defined.

Lemma same_triple_sym a b : same_triple a b → same_triple b a.
Proof. unfold same_triple. intros (-> & -> & ->). done. Qed.

Lemma triples_unique_no_pair l1 x l2 y :
  triples_unique (l1 ++ x :: l2) → y ∈ l1 ++ l2 → ¬ same_triple x y.
Proof.
  induction l1 as [|z l1 IH]; simpl; intros [Hz Hrest] Hy.
  - by apply Hz.
  - apply elem_of_cons in Hy as [->|Hy]; [|by apply IH].
    intros Hsame. apply (Hz x); [|by apply same_triple_sym].
    apply elem_of_app. right. left.
Qed.

(** X14. [edit_proxy] does not check the triple: editing a stored proxy
    to the [ip], [port] and [protocol] of another stored proxy writes the
    change, and leaves a collection in which two proxies share [(ip, port,
    protocol)].  The reply is the success reply, unless the [instance_ids]
    of the edited document is an array: then the validation of the model
    raises, after the write. *)
Theorem edit_proxy_breaks_uniqueness a b self :
  a ∈ db_proxies self →
  get_proxy (_id b) self = Some b →
  _id a ≠ _id b →
  let r :=
    edit_proxy (_id b)
      [("ip", Some (VStr (ip a))); ("port", Some (VInt (port a)));
       ("protocol", Some (VStr (protocol a)))] self in
  let updated_proxy := set_protocol (protocol a) (set_port (port a) (set_ip (ip a) b)) in
  r.1 = match instance_ids b with
        | IdsArray _ => Raise ValidationError
        | IdsMap _ | IdsMissing => Ret (Edited ["ip"; "port"; "protocol"] updated_proxy)
        end
  ∧ same_triple updated_proxy a
  ∧ get_proxy (_id b) r.2 = Some updated_proxy
  ∧ ¬ triples_unique (db_proxies r.2).
Proof.
  intros Ha Hb Hne r b'. unfold r, edit_proxy, bind, find_one, lift.
  unfold get_proxy in Hb. rewrite Hb.
  change (edit_collect _ [] [])
    with (Ret ([("ip", VStr (ip a)); ("port", VInt (port a)); ("protocol", VStr (protocol a))],
               ["ip"; "port"; "protocol"])).
  cbv iota beta. unfold find_one_and_update. rewrite Hb.
  change (op_set_fields _ b) with (Ret b').
  apply head_filter_split in Hb as (l1 & l2 & Hdb & Hl1 & Hid).
  rewrite Hdb, (update_first_hit _ _ l1 b l2 Hl1 Hid).
  change (op_set_fields _ b) with (Ret b'). cbv iota beta.
  assert ((match validate b' with
           | Ret _ => (Ret (Edited ["ip"; "port"; "protocol"] b') : result edit_reply)
           | Raise e => Raise e
           end)
          = match instance_ids b with
            | IdsArray _ => Raise ValidationError
            | IdsMap _ | IdsMissing => Ret (Edited ["ip"; "port"; "protocol"] b')
            end) as Hreply.
  { unfold validate. change (instance_ids b') with (instance_ids b).
    by destruct (instance_ids b). }
  assert (¬ triples_unique (l1 ++ b' :: l2)) as Hdup.
  { intros Huniq. apply (triples_unique_no_pair l1 b' l2 a Huniq); [|by repeat split].
    rewrite Hdb in Ha. apply elem_of_app in Ha as [Ha|Ha]; apply elem_of_app; [by left|].
    apply elem_of_cons in Ha as [->|Ha]; [done|by right]. }
  assert (head (List.filter (by_id (_id b)) (l1 ++ b' :: l2)) = Some b') as Hget
    by (by apply lookup_after_write).
  rewrite <- Hreply. unfold get_proxy.
  destruct (validate b'); simpl; by repeat split.
Qed.

Lemma edit_proxy_breaks_uniqueness_witness :
  let a := sample_proxy 1 8080 "HTTP" "UP" (IdsMap []) in
  let b := sample_proxy 2 8081 "SOCKS5" "UP" (IdsMap []) in
  let r :=
    edit_proxy 2 [("ip", Some (VStr "1.2.3.4")); ("port", Some (VInt 8080));
                  ("protocol", Some (VStr "HTTP"))] (sample_manager 2 1 [a; b]) in
  r.1 = Ret (Edited ["ip"; "port"; "protocol"]
               (set_protocol "HTTP" (set_port 8080 (set_ip "1.2.3.4" b))))
  ∧ ¬ triples_unique (db_proxies r.2).
Proof.
  intros a b r.
  destruct (edit_proxy_breaks_uniqueness a b (sample_manager 2 1 [a; b]))
    as (Hreply & _ & _ & Hdup).
  - left.
  - reflexivity.
  - discriminate.
  - split; [exact Hreply|exact Hdup].
Defined.

(** ** More on assignment *)

(** X15. An assignment that does not succeed, whether it replies with an
    error or raises, leaves the state as it was. *)
Theorem assign_failure_changes_nothing inst cc tags now srv self r self' :
  assign_proxy_to_instance inst cc tags now srv self = (r, self') →
  (∀ pid i p u pw pr, r ≠ Ret (Assigned pid i p u pw pr)) →
  self' = self.
Proof.
  unfold assign_proxy_to_instance, bind. rewrite assign_select_eq.
  destruct (bool_decide _); [by intros [= _ <-]|].
  destruct (head _) as [proxy|] eqn:Hcand; [|by intros [= _ <-]].
  unfold get_self, lift.
  destruct (assign_leases _ proxy inst now) as [new|e]; [|by intros [= _ <-]].
  apply head_filter_split in Hcand as (k1 & k2 & Hdb & _ & _).
  assert (proxy ∈ db_proxies self) as Hin by (rewrite Hdb; set_solver).
  destruct (first_with_id_exists _ _ Hin) as (l1 & d & l2 & Hdb' & Hl1 & Hid).
  rewrite (assign_commit_hit _ _ _ _ l1 d l2 Hdb' Hl1 Hid).
  destruct (decide (instance_ids d = IdsMap new)); [by intros [= _ <-]|].
  intros [= <- _] Hfail. by destruct (Hfail _ _ _ _ _ _ eq_refl).
Qed.

Lemma assign_failure_changes_nothing_witness :
  let self :=
    sample_manager 1 1 [sample_proxy 1 8080 "HTTP" "UP" (IdsMap [("i1", sample_now)])] in
  (assign_proxy_to_instance "i2" None None sample_now sample_now self).2 = self.
Proof.
  intros self.
  apply (assign_failure_changes_nothing "i2" None None sample_now sample_now self
           (Ret NoProxyAvailable)).
  - reflexivity.
  - discriminate.
Defined.

(** X16. The proxy an assignment returns is a stored proxy that, as read,
    was UP, held fewer than [max_instances_per_proxy] leases, carried every
    requested tag and had the requested country code in upper case; the
    address and credentials of the reply are its own. *)
Theorem assign_returns_matching_proxy inst cc tgs now srv self self' pid i p u pw pr :
  assign_proxy_to_instance inst cc tgs now srv self = (Ret (Assigned pid i p u pw pr), self') →
  ∃ proxy,
    proxy ∈ db_proxies self
    ∧ _id proxy = pid ∧ ip proxy = i ∧ port proxy = p
    ∧ username proxy = u ∧ password proxy = pw ∧ protocol proxy = pr
    ∧ status proxy = "UP"
    ∧ Z.of_nat (length (leases proxy)) < max_instances_per_proxy self
    ∧ (∀ wanted t, tgs = Some wanted → t ∈ wanted → t ∈ tags proxy)
    ∧ (∀ code, cc = Some code → code ≠ "" → country_code proxy = Some (upper code)).
Proof.
  unfold assign_proxy_to_instance, bind. rewrite assign_select_eq.
  destruct (bool_decide _); [done|].
  destruct (head _) as [proxy|] eqn:Hcand; [|done].
  unfold get_self, lift.
  destruct (assign_leases _ proxy inst now) as [new|e] eqn:Hnew; [|done].
  apply head_filter_split in Hcand as (k1 & k2 & Hdb & _ & Hq).
  assert (proxy ∈ db_proxies self) as Hin by (rewrite Hdb; set_solver).
  destruct (first_with_id_exists _ _ Hin) as (l1 & d & l2 & Hdb' & Hl1 & Hid).
  rewrite (assign_commit_hit _ _ _ _ l1 d l2 Hdb' Hl1 Hid).
  destruct (decide (instance_ids d = IdsMap new)); [done|].
  intros [= <- <- <- <- <- <- <-]. exists proxy. pose proof Hq as Hq0.
  unfold candidate_query in Hq. rewrite !andb_true_iff in Hq.
  destruct Hq as [[[Hup Hcap] Htags] Hcc]. apply bool_decide_eq_true in Hup.
  repeat split; try done.
  - unfold assign_leases in Hnew. unfold leases.
    destruct (instance_ids proxy) as [|m|] eqn:Hm; [done| |done].
    exact (candidate_query_capacity _ _ _ _ _ Hq0 Hm).
  - intros wanted t -> Ht. destruct wanted as [|w wanted]; [by apply not_elem_of_nil in Ht|].
    unfold tags_all in Htags. rewrite forallb_forall in Htags.
    specialize (Htags t). rewrite <- list_elem_of_In in Htags.
    specialize (Htags Ht). by apply bool_decide_eq_true in Htags.
  - intros code -> Hne. destruct code as [|c code]; [done|].
    unfold country_is in Hcc. by apply bool_decide_eq_true in Hcc.
Qed.

Lemma assign_returns_matching_proxy_witness :
  let fr :=
    set_country_code (Some "FR") (sample_proxy 2 8081 "HTTP" "UP" (IdsMap [])) in
  let us :=
    set_country_code (Some "US") (sample_proxy 1 8080 "HTTP" "UP" (IdsMap [])) in
  let self := sample_manager 2 1 [us; fr] in
  ∃ proxy, proxy ∈ db_proxies self ∧ _id proxy = 2%N ∧ country_code proxy = Some "FR".
Proof.
  intros fr us self.
  destruct (assign_returns_matching_proxy "i1" (Some "fr") None sample_now sample_now self
              (assign_proxy_to_instance "i1" (Some "fr") None sample_now sample_now self).2
              2%N "1.2.3.4" 8081 None None "HTTP" eq_refl)
    as (proxy & Hin & Hid & _ & _ & _ & _ & _ & _ & _ & _ & Hcc).
  exists proxy. split; [exact Hin|]. split; [exact Hid|].
  apply (Hcc "fr" eq_refl). discriminate.
Defined.

Lemma dict_get_elem_of {V} (d : list (string * V)) k v :
  dict_get k d = Some v → (k, v) ∈ d.
Proof.
  induction d as [|[k' v'] d IH]; simpl; [done|].
  destruct (decide (k' = k)) as [->|]; [intros [= ->]; left|intros ?; right; auto].
Qed.

(** X17. After a successful assignment the returned proxy holds the lease
    of the caller stamped with the time of the call, [last_used] is the
    server time, every other lease it holds is strictly newer than the
    timeout, and every other proxy is found as before. *)
Theorem assign_installs_lease inst cc tags now srv self self' pid i p u pw pr :
  assign_proxy_to_instance inst cc tags now srv self = (Ret (Assigned pid i p u pw pr), self') →
  (∃ d',
     get_proxy pid self' = Some d'
     ∧ dict_get inst (leases d') = Some now
     ∧ last_used d' = Value srv
     ∧ ∀ k t, dict_get k (leases d') = Some t →
              (k = inst ∧ t = now)
              ∨ now - timedelta_minutes (inactive_proxy_timeout self) < t)
  ∧ ∀ other, other ≠ pid → get_proxy other self' = get_proxy other self.
Proof.
  unfold assign_proxy_to_instance, bind. rewrite assign_select_eq.
  destruct (bool_decide _); [done|].
  destruct (head _) as [proxy|] eqn:Hcand; [|done].
  unfold get_self, lift.
  destruct (assign_leases _ proxy inst now) as [new|e] eqn:Hnew; [|done].
  apply head_filter_split in Hcand as (k1 & k2 & Hdb & _ & Hq).
  assert (proxy ∈ db_proxies self) as Hin by (rewrite Hdb; set_solver).
  destruct (first_with_id_exists _ _ Hin) as (l1 & d & l2 & Hdb' & Hl1 & Hid).
  rewrite (assign_commit_hit _ _ _ _ l1 d l2 Hdb' Hl1 Hid).
  destruct (decide (instance_ids d = IdsMap new)); [done|].
  intros [= <- <- <- <- <- <- <-].
  assert (∃ m, instance_ids proxy = IdsMap m) as [m Hm].
  { unfold assign_leases in Hnew. destruct (instance_ids proxy); [done|by eexists|done]. }
  split.
  - exists (set_last_used (Value srv) (set_instance_ids (IdsMap new) d)).
    split; [unfold get_proxy; simpl; by apply lookup_after_write|].
    unfold leases. simpl. split; [|split; [done|]].
    + unfold assign_leases in Hnew. rewrite Hm in Hnew. injection Hnew as <-.
      apply dict_get_set.
    + intros k t Hget.
      destruct (assign_leases_fresh _ _ _ _ _ _ _ _ Hm Hnew Hget) as [?|[? _]]; auto.
  - intros other Hne. unfold get_proxy. simpl. rewrite Hdb', !List.filter_app. simpl.
    assert (by_id other d = false) as -> by (apply by_id_false; congruence).
    assert (by_id other (set_last_used (Value srv) (set_instance_ids (IdsMap new) d)) = false)
      as -> by (apply by_id_false; simpl; congruence).
    done.
Qed.

Lemma assign_installs_lease_witness :
  let self :=
    sample_manager 2 1
      [sample_proxy 1 8080 "HTTP" "DOWN" (IdsMap []);
       sample_proxy 2 8081 "HTTP" "UP" (IdsMap [("i1", sample_now - 1)])] in
  let self' := (assign_proxy_to_instance "i2" None None sample_now (sample_now + 1) self).2 in
  (∃ d', get_proxy 2 self' = Some d' ∧ dict_get "i2" (leases d') = Some sample_now)
  ∧ get_proxy 1 self' = get_proxy 1 self.
Proof.
  intros self self'.
  destruct (assign_installs_lease "i2" None None sample_now (sample_now + 1) self self'
              2%N "1.2.3.4" 8081 None None "HTTP" eq_refl)
    as [(d' & Hget & Hlease & _) Hother].
  split; [exists d'; by split|]. apply Hother. discriminate.
Defined.

(** X18. A candidate whose [instance_ids] is an array, the shape
    [assign_instance_id] writes, makes the assignment raise
    [AttributeError], with nothing changed: as the first match of the
    candidate query is chosen every time, such a document fails every
    request it is the first match of. *)
Theorem assign_fails_on_array_candidate inst cc tags now srv self d l :
  Z.of_nat (length (List.filter (instance_ids_equals inst) (db_proxies self)))
    < max_proxies_per_instance self →
  head (List.filter (candidate_query (max_instances_per_proxy self) cc tags) (db_proxies self))
    = Some d →
  instance_ids d = IdsArray l →
  assign_proxy_to_instance inst cc tags now srv self = (Raise AttributeError, self).
Proof.
  intros Hsat Hcand Harr. unfold assign_proxy_to_instance, bind.
  rewrite assign_select_eq, Hcand. rewrite bool_decide_eq_false_2 by lia.
  unfold get_self, lift, assign_leases. by rewrite Harr.
Qed.

Lemma assign_fails_on_array_candidate_witness :
  let self :=
    sample_manager 2 1
      [sample_proxy 1 8080 "HTTP" "UP" (IdsArray ["i7"]);
       sample_proxy 2 8081 "HTTP" "UP" (IdsMap [])] in
  assign_proxy_to_instance "i1" None None sample_now sample_now self
  = (Raise AttributeError, self).
Proof.
  intros self.
  apply (assign_fails_on_array_candidate "i1" None None sample_now sample_now self
           (sample_proxy 1 8080 "HTTP" "UP" (IdsArray ["i7"])) ["i7"]).
  - reflexivity.
  - reflexivity.
  - reflexivity.
Defined.

(** ** The legacy assignment *)

Lemma add_to_set_first_hit proxy_id inst l1 d l2 :
  Forall (λ x, by_id proxy_id x = false) l1 → by_id proxy_id d = true →
  add_to_set_first proxy_id inst (l1 ++ d :: l2) =
    match add_to_set inst d with
    | Written d' => Written (l1 ++ d' :: l2, if decide (d' = d) then 0%nat else 1%nat)
    | WriteError => WriteError
    end.
Proof.
  intros Hl1 Hd. induction Hl1 as [|x l1 Hx _ IH]; simpl.
  - rewrite Hd. by destruct (add_to_set inst d).
  - rewrite Hx, IH. by destruct (add_to_set inst d).
Qed.

(** X19. [assign_instance_id] never touches a lease mapping: on a proxy
    whose [instance_ids] is a mapping the server refuses the write and the
    state is unchanged; on a proxy without the field it creates the array
    [[inst]] and reports the change. *)
Theorem assign_instance_id_shapes proxy_id inst self d :
  get_proxy proxy_id self = Some d →
  ((∃ m, instance_ids d = IdsMap m) →
   assign_instance_id proxy_id inst self = (WriteError, self))
  ∧ (instance_ids d = IdsMissing →
     (assign_instance_id proxy_id inst self).1 = Written true
     ∧ get_proxy proxy_id (assign_instance_id proxy_id inst self).2
       = Some (set_instance_ids (IdsArray [inst]) d)).
Proof.
  intros Hget. apply head_filter_split in Hget as (l1 & l2 & Hdb & Hl1 & Hid).
  unfold assign_instance_id. rewrite Hdb, (add_to_set_first_hit _ _ l1 d l2 Hl1 Hid).
  unfold add_to_set. split.
  - by intros [m ->].
  - intros Hmissing. rewrite Hmissing.
    rewrite decide_False by (rewrite set_instance_ids_same; congruence).
    split; [done|]. unfold get_proxy. simpl. apply lookup_after_write; [done|].
    by apply by_id_true in Hid.
Qed.

Lemma assign_instance_id_shapes_witness :
  let self := sample_manager 2 1 [sample_proxy 1 8080 "HTTP" "UP" (IdsMap [])] in
  assign_instance_id 1 "i1" self = (WriteError, self).
Proof.
  intros self.
  destruct (assign_instance_id_shapes 1 "i1" self
              (sample_proxy 1 8080 "HTTP" "UP" (IdsMap [])) eq_refl) as [H _].
  apply H. by eexists.
Defined.

(** ** More on the expiry sweep *)

Lemma foldr_dict_del_filter (m : list (string * Z)) (ks : list string) :
  foldr dict_del m ks = filter (λ e, e.1 ∉ ks) m.
Proof.
  induction ks as [|k ks IH]; simpl.
  - induction m as [|e m IHm]; [done|]. rewrite filter_cons.
    rewrite decide_True by apply not_elem_of_nil. by rewrite <- IHm.
  - rewrite IH. unfold dict_del. rewrite list_filter_filter.
    apply list_filter_iff. intros e. rewrite not_elem_of_cons. tauto.
Qed.

Lemma filter_ext_elem {A} (P Q : A → Prop) `{∀ x, Decision (P x)} `{∀ x, Decision (Q x)}
    (l : list A) :
  (∀ x, x ∈ l → (P x ↔ Q x)) → filter P l = filter Q l.
Proof.
  induction l as [|x l IH]; [done|]. intros Hext. rewrite !filter_cons.
  rewrite IH by (intros y Hy; apply Hext; by right).
  destruct (decide (P x)) as [HP|HP], (decide (Q x)) as [HQ|HQ]; try done;
    exfalso; pose proof (Hext x ltac:(left)); tauto.
Qed.

Lemma NoDup_keys_unique (m : list (string * Z)) k t t' :
  NoDup (dict_keys m) → (k, t) ∈ m → (k, t') ∈ m → t = t'.
Proof.
  unfold dict_keys. induction m as [|[k0 v0] m IH]; simpl; intros Hnd H1 H2.
  - by apply not_elem_of_nil in H1.
  - apply NoDup_cons in Hnd as [Hk0 Hnd].
    apply elem_of_cons in H1 as [E1|H1]; apply elem_of_cons in H2 as [E2|H2].
    + congruence.
    + injection E1 as -> ->. destruct Hk0. by apply (list_elem_of_fmap_2 fst m (k0, t')).
    + injection E2 as -> ->. destruct Hk0. by apply (list_elem_of_fmap_2 fst m (k0, t)).
    + by apply IH.
Qed.

Lemma swept_keeps_fresh thr d m :
  instance_ids d = IdsMap m → NoDup (dict_keys m) →
  instance_ids (swept thr d) = IdsMap (filter (λ kv, thr ≤ kv.2) m).
Proof.
  intros Hd Hnd. rewrite (swept_leases thr d m Hd), foldr_dict_del_filter. f_equal.
  apply filter_ext_elem. intros [k t] Hin. simpl. split.
  - intros Hout. destruct (decide (thr ≤ t)); [done|].
    destruct Hout. apply (in_expired_keys thr m k t); [done|lia].
  - intros Hfresh Hexp. unfold expired_keys, dict_keys in Hexp.
    apply list_elem_of_fmap in Hexp as ([k' t'] & Hk & Hin').
    apply list_elem_of_filter in Hin' as [Hlt Hin']. simpl in *. subst k'.
    pose proof (NoDup_keys_unique m k t t' Hnd Hin Hin'). lia.
Qed.

Lemma swept_other_fields thr d :
  set_last_used (last_used d) (set_instance_ids (instance_ids d) (swept thr d)) = d.
Proof.
  unfold swept. destruct (instance_ids d) as [|m|l] eqn:Hd;
    try (destruct d; simpl in *; by subst).
  cbv zeta. destruct (expired_keys thr m); [destruct d; simpl in *; by subst|].
  destruct (bool_decide _); destruct d; simpl in *; by subst.
Qed.

(** X20. One iteration of the sweep keeps, on every proxy with a lease
    mapping, exactly the leases whose time stamp is at least the threshold,
    in their order, and changes no field other than [instance_ids] and
    [last_used]; [last_used] itself stays when a lease remains. *)
Theorem sweep_keeps_fresh_leases now self d m :
  NoDup (_id <$> db_proxies self) →
  Forall well_formed_leases (db_proxies self) →
  d ∈ db_proxies self →
  instance_ids d = IdsMap m →
  NoDup (dict_keys m) →
  let threshold_time := now - timedelta_minutes (threshold_time_minutes self) in
  ∃ d',
    get_proxy (_id d) (clear_inactive_proxies_iteration now self).2 = Some d'
    ∧ instance_ids d' = IdsMap (filter (λ kv, threshold_time ≤ kv.2) m)
    ∧ set_last_used (last_used d) (set_instance_ids (instance_ids d) d') = d
    ∧ (filter (λ kv, threshold_time ≤ kv.2) m ≠ [] → last_used d' = last_used d).
Proof.
  intros Hnd Hwf Hin Hd Hkeys thr.
  rewrite (clear_inactive_proxies_iteration_eq now self Hnd Hwf). simpl.
  exists (swept thr d). split; [|split; [|split]].
  - unfold get_proxy. simpl. apply lookup_fmap_by_id; [apply swept_id|done..].
  - by apply swept_keeps_fresh.
  - apply swept_other_fields.
  - intros Hsome. unfold swept. rewrite Hd. cbv zeta.
    destruct (expired_keys thr m) as [|k ks] eqn:Hexp; [done|].
    rewrite bool_decide_eq_false_2; [done|]. intros Hlen.
    assert (filter (λ kv : string * Z, kv.2 < thr) m = m) as Hall.
    { rewrite <- Hexp in Hlen. unfold expired_keys, dict_keys in Hlen.
      rewrite length_fmap in Hlen. clear -Hlen.
      induction m as [|e m IH]; [done|]. rewrite filter_cons in Hlen |- *.
      pose proof (length_filter (λ kv : string * Z, kv.2 < thr) m).
      destruct (decide (e.2 < thr)); simpl in *; [f_equal; apply IH; lia|lia]. }
    destruct (filter (λ kv : string * Z, thr ≤ kv.2) m) as [|[k' t'] rest] eqn:Hfresh; [done|].
    assert ((k', t') ∈ filter (λ kv : string * Z, thr ≤ kv.2) m) as Hf by (rewrite Hfresh; left).
    apply list_elem_of_filter in Hf as [Hge Hm]. rewrite <- Hall in Hm.
    apply list_elem_of_filter in Hm as [Hlt _]. simpl in *. lia.
Qed.

Lemma sweep_keeps_fresh_leases_witness :
  let p :=
    sample_proxy 1 8080 "HTTP" "UP"
      (IdsMap [("i1", sample_now - timedelta_minutes 20); ("i2", sample_now - 1)]) in
  ∃ d',
    get_proxy 1 (clear_inactive_proxies_iteration sample_now (sample_manager 2 1 [p])).2
    = Some d'
    ∧ instance_ids d' = IdsMap [("i2", sample_now - 1)].
Proof.
  intros p.
  destruct (sweep_keeps_fresh_leases sample_now (sample_manager 2 1 [p]) p
              [("i1", sample_now - timedelta_minutes 20); ("i2", sample_now - 1)])
    as (d' & Hget & Hids & _).
  - apply (bool_decide_unpack _). vm_compute. exact I.
  - repeat constructor.
  - left.
  - reflexivity.
  - apply (bool_decide_unpack _). vm_compute. exact I.
  - exists d'. split; [exact Hget|exact Hids].
Defined.

Lemma swept_idempotent thr d : swept thr (swept thr d) = swept thr d.
Proof.
  unfold swept at 1. destruct (instance_ids (swept thr d)) as [|m'|] eqn:Hd'; [done| |done].
  cbv zeta. destruct (expired_keys thr m') as [|k ks] eqn:Hexp; [done|].
  assert (k ∈ expired_keys thr m') as Hk by (rewrite Hexp; left).
  unfold expired_keys, dict_keys in Hk.
  apply list_elem_of_fmap in Hk as ([k' t] & _ & Hin).
  apply list_elem_of_filter in Hin as [Hlt Hin]. simpl in Hlt.
  pose proof (swept_fresh thr d m' k' t Hd' Hin). lia.
Qed.

Lemma swept_well_formed thr d : well_formed_leases d → well_formed_leases (swept thr d).
Proof.
  unfold well_formed_leases. intros Hwf.
  destruct (instance_ids d) as [|m|l] eqn:Hd.
  - unfold swept. by rewrite Hd, Hd.
  - rewrite (swept_leases thr d m Hd). rewrite Forall_forall in Hwf |- *.
    intros k Hk. unfold dict_keys in Hk.
    apply list_elem_of_fmap in Hk as (e & -> & He).
    apply elem_of_foldr_dict_del in He as [He _]. apply Hwf.
    by apply list_elem_of_fmap_2.
  - unfold swept. by rewrite Hd, Hd.
Qed.

(** X21. The sweep is idempotent: a second iteration at the same time
    changes nothing. *)
Theorem sweep_idempotent now self :
  NoDup (_id <$> db_proxies self) →
  Forall well_formed_leases (db_proxies self) →
  let self' := (clear_inactive_proxies_iteration now self).2 in
  clear_inactive_proxies_iteration now self' = (Ret (), self').
Proof.
  intros Hnd Hwf self'. unfold self'.
  rewrite (clear_inactive_proxies_iteration_eq now self Hnd Hwf). simpl.
  set (thr := now - timedelta_minutes (threshold_time_minutes self)).
  assert (NoDup (_id <$> (swept thr <$> db_proxies self))) as Hnd'.
  { rewrite <- list_fmap_compose.
    rewrite (list_fmap_ext (_id ∘ swept thr) _id (db_proxies self)); [done|].
    intros ? d _. apply swept_id. }
  assert (Forall well_formed_leases (swept thr <$> db_proxies self)) as Hwf'.
  { apply Forall_fmap. eapply Forall_impl; [exact Hwf|].
    intros d. apply swept_well_formed. }
  rewrite (clear_inactive_proxies_iteration_eq now
             (with_proxies (swept thr <$> db_proxies self) self) Hnd' Hwf').
  simpl. fold thr. rewrite <- list_fmap_compose.
  rewrite (list_fmap_ext (swept thr ∘ swept thr) (swept thr) (db_proxies self)); [done|].
  intros ? d _. apply swept_idempotent.
Qed.

Lemma sweep_idempotent_witness :
  let self :=
    sample_manager 2 1
      [sample_proxy 1 8080 "HTTP" "UP"
         (IdsMap [("i1", sample_now - timedelta_minutes 20); ("i2", sample_now - 1)])] in
  let self' := (clear_inactive_proxies_iteration sample_now self).2 in
  clear_inactive_proxies_iteration sample_now self' = (Ret (), self').
Proof.
  intros self. apply (sweep_idempotent sample_now self).
  - apply (bool_decide_unpack _). vm_compute. exact I.
  - repeat constructor.
Defined.

(** ** More on refreshing *)

Lemma dict_set_set {V} (d : list (string * V)) k v v' :
  dict_set k v' (dict_set k v d) = dict_set k v' d.
Proof.
  induction d as [|[k0 v0] d IH]; simpl.
  - by rewrite decide_True.
  - destruct (decide (k0 = k)) as [->|]; simpl.
    + by rewrite decide_True.
    + rewrite decide_False by done. by rewrite IH.
Qed.

Lemma refresh_with_instance_eq proxy_id inst srv self l1 d l2 :
  plain_field_name inst = true →
  db_proxies self = l1 ++ d :: l2 →
  Forall (λ x, by_id proxy_id x = false) l1 →
  _id d = proxy_id →
  (∀ l, instance_ids d ≠ IdsArray l) →
  (API.refresh_proxy_usage proxy_id (Some inst) srv self).2
  = with_proxies
      (l1 ++ set_instance_ids (IdsMap (dict_set inst srv (leases d))) d :: l2) self.
Proof.
  intros Hplain Hdb Hl1 Hid Hshape.
  unfold API.refresh_proxy_usage, update_last_used, bind.
  destruct inst as [|c inst']; [done|].
  rewrite (update_one_hit _ _ _ l1 d l2 Hdb Hl1) by (by apply by_id_true).
  unfold op_current_date_lease, leases. rewrite Hplain.
  destruct (instance_ids d) as [|m|l]; [| |by destruct (Hshape l)];
    simpl; by destruct (bool_decide _).
Qed.

(** X22. Refreshing a lease twice is refreshing it once at the later time:
    the state after [refresh_proxy_usage(p, i)] at [t1] and then at [t2] is
    the state after the single call at [t2]. *)
Theorem refresh_last_call_wins proxy_id inst t1 t2 self d :
  plain_field_name inst = true →
  get_proxy proxy_id self = Some d →
  (∀ l, instance_ids d ≠ IdsArray l) →
  (API.refresh_proxy_usage proxy_id (Some inst) t2
     (API.refresh_proxy_usage proxy_id (Some inst) t1 self).2).2
  = (API.refresh_proxy_usage proxy_id (Some inst) t2 self).2.
Proof.
  intros Hplain Hget Hshape.
  apply head_filter_split in Hget as (l1 & l2 & Hdb & Hl1 & Hid).
  apply by_id_true in Hid.
  rewrite (refresh_with_instance_eq proxy_id inst t1 self l1 d l2) by done.
  rewrite (refresh_with_instance_eq proxy_id inst t2 self l1 d l2) by done.
  rewrite (refresh_with_instance_eq proxy_id inst t2 _ l1
             (set_instance_ids (IdsMap (dict_set inst t1 (leases d))) d) l2);
    [|done..].
  unfold leases at 1. simpl. by rewrite dict_set_set.
Qed.

Lemma refresh_last_call_wins_witness :
  let self :=
    sample_manager 2 1 [sample_proxy 1 8080 "HTTP" "UP" (IdsMap [("i1", sample_now - 5)])] in
  (API.refresh_proxy_usage 1 (Some "i1") (sample_now + 9)
     (API.refresh_proxy_usage 1 (Some "i1") sample_now self).2).2
  = (API.refresh_proxy_usage 1 (Some "i1") (sample_now + 9) self).2.
Proof.
  intros self.
  apply (refresh_last_call_wins 1 "i1" sample_now (sample_now + 9) self
           (sample_proxy 1 8080 "HTTP" "UP" (IdsMap [("i1", sample_now - 5)]))).
  - reflexivity.
  - reflexivity.
  - discriminate.
Defined.

(** X23. Without an instance id, the refresh sets [last_used] to the
    server time and leaves every other field, the leases among them, as it
    is; it reports an error for a proxy that is not stored, with or without
    an instance id, and then changes nothing. *)
Theorem refresh_without_instance proxy_id inst srv self :
  match get_proxy proxy_id self with
  | Some d =>
      get_proxy proxy_id (API.refresh_proxy_usage proxy_id None srv self).2
      = Some (set_last_used (Value srv) d)
  | None => API.refresh_proxy_usage proxy_id inst srv self = (Ret ReplyError, self)
  end.
Proof.
  unfold get_proxy, API.refresh_proxy_usage, update_last_used, bind.
  destruct (head _) as [d|] eqn:Hd.
  - apply head_filter_split in Hd as (l1 & l2 & Hdb & Hl1 & Hid).
    rewrite (update_one_hit _ _ _ l1 d l2 Hdb Hl1 Hid). unfold op_current_date_last_used.
    apply by_id_true in Hid.
    destruct (bool_decide _); simpl; by apply lookup_after_write.
  - apply head_filter_none in Hd. by rewrite update_one_miss.
Qed.

(** ** Country codes *)

Lemma enriched_id lookup d : _id (enriched lookup d) = _id d.
Proof.
  unfold enriched. destruct (country_code d); [done|].
  by destruct (lookup (ip d)) as [[|? ?]|].
Qed.

Lemma enrich_proxy_eq lookup self l1 d l2 :
  db_proxies self = l1 ++ d :: l2 →
  Forall (λ x, by_id (_id d) x = false) l1 →
  enrich_proxy lookup (with_counts d) self
  = (Ret (), with_proxies (l1 ++ enriched lookup d :: l2) self).
Proof.
  intros Hdb Hl1. unfold enrich_proxy, enriched.
  change (ProxyModel.country_code (with_counts d)) with (country_code d).
  change (ProxyModel.ip (with_counts d)) with (ip d).
  change (ProxyModel.id (with_counts d)) with (_id d).
  destruct (country_code d); [unfold ret; by rewrite <- Hdb, with_proxies_same|].
  destruct (lookup (ip d)) as [[|c code]|];
    try (unfold ret; by rewrite <- Hdb, with_proxies_same).
  unfold bind, update_proxy_country_code, bind.
  rewrite (update_one_hit _ _ _ l1 d l2 Hdb Hl1) by (by apply by_id_true).
  by destruct (decide _).
Qed.

Lemma for_each_enrich lookup todo : ∀ seen self,
  db_proxies self = (enriched lookup <$> seen) ++ todo →
  NoDup (_id <$> (seen ++ todo)) →
  for_each (enrich_proxy lookup) (List.map with_counts todo) self =
    (Ret (), with_proxies (enriched lookup <$> (seen ++ todo)) self).
Proof.
  induction todo as [|d todo IH]; intros seen self Hdb Hnd.
  - simpl. rewrite app_nil_r in *. unfold ret. by rewrite <- Hdb, with_proxies_same.
  - cbn [List.map for_each]. unfold bind.
    assert (Forall (λ x, by_id (_id d) x = false) (enriched lookup <$> seen)) as Hl1.
    { apply Forall_fmap, Forall_forall. intros x Hx. simpl.
      apply by_id_false. rewrite enriched_id. intros Heq.
      rewrite fmap_app in Hnd. apply NoDup_app in Hnd as (_ & Hdisj & _).
      apply (Hdisj (_id x)); [by apply list_elem_of_fmap_2|].
      rewrite Heq. simpl. left. }
    rewrite (enrich_proxy_eq lookup self _ d todo Hdb Hl1).
    rewrite (IH (seen ++ [d]) (with_proxies _ self)).
    + by rewrite <- app_assoc.
    + simpl. by rewrite fmap_app, <- app_assoc.
    + by rewrite <- app_assoc.
Qed.

(** X24. One iteration of the country-code loop, for any lookup: a proxy
    that has a country code keeps its document; a proxy without one gets
    the code the lookup gives for its address, and keeps its document when
    the lookup gives none. *)
Theorem enrichment_fills_missing_codes lookup self :
  NoDup (_id <$> db_proxies self) →
  ∃ self',
    background_update_country_codes_iteration lookup self = (Ret (), self')
    ∧ (∀ d, d ∈ db_proxies self → is_Some (country_code d) →
            get_proxy (_id d) self' = Some d)
    ∧ (∀ d c code, d ∈ db_proxies self → country_code d = None →
            lookup (ip d) = Some (String c code) →
            get_proxy (_id d) self' = Some (set_country_code (Some (String c code)) d))
    ∧ (∀ d, d ∈ db_proxies self → country_code d = None → lookup (ip d) = None →
            get_proxy (_id d) self' = Some d).
Proof.
  intros Hnd. eexists. split.
  - unfold background_update_country_codes_iteration, get_proxies, bind, find, ret.
    rewrite filter_all. by apply (for_each_enrich lookup (db_proxies self) [] self).
  - assert (∀ d, d ∈ db_proxies self →
                 get_proxy (_id d) (with_proxies (enriched lookup <$> db_proxies self) self)
                 = Some (enriched lookup d)) as Hget.
    { intros d Hd. unfold get_proxy. simpl.
      apply lookup_fmap_by_id; [apply enriched_id|done..]. }
    simpl. split; [|split].
    + intros d Hd [c Hc]. rewrite (Hget d Hd). unfold enriched. by rewrite Hc.
    + intros d c code Hd Hc Hl. rewrite (Hget d Hd). unfold enriched. by rewrite Hc, Hl.
    + intros d Hd Hc Hl. rewrite (Hget d Hd). unfold enriched. by rewrite Hc, Hl.
Qed.

Lemma enrichment_fills_missing_codes_witness :
  let known :=
    set_country_code (Some "US") (sample_proxy 1 8080 "HTTP" "UP" (IdsMap [])) in
  let unknown := sample_proxy 2 8081 "HTTP" "UP" (IdsMap []) in
  ∃ self',
    background_update_country_codes_iteration (λ _, Some "FR")
      (sample_manager 2 1 [known; unknown]) = (Ret (), self')
    ∧ get_proxy 1 self' = Some known
    ∧ get_proxy 2 self' = Some (set_country_code (Some "FR") unknown).
Proof.
  intros known unknown.
  destruct (enrichment_fills_missing_codes (λ _, Some "FR")
              (sample_manager 2 1 [known; unknown]))
    as (self' & Hrun & Hkeep & Hfill & _).
  - apply (bool_decide_unpack _). vm_compute. exact I.
  - exists self'. split; [exact Hrun|]. split.
    + apply (Hkeep known); [left|by eexists].
    + apply (Hfill unknown "F"%char "R"); [right; left|reflexivity|reflexivity].
Defined.
